(** * Neon Chronos: trail sampling and skeleton rendering

    A shallow embedding of the render tick of the visualizer component
    ([animate], the per-layer nearest-frame search and the position-buffer
    update) and of the pose callback that maintains the bounded history
    ([onResults]), with the properties the specification states about them.

    JavaScript numbers are modelled by exact rationals ([Q]): timestamps are
    integers produced by [Date.now()], targets are integers minus a layer
    delay, landmark coordinates are normalised fractions.  Rounding of IEEE
    doubles (and the narrowing to 32-bit floats of the position buffer) is
    not part of the model.  The opacity of a layer uses a real exponent and is
    modelled over [R]. *)

From Stdlib Require Import Reals Rpower Lra.
From Stdlib Require Import QArith Qabs Lqa Lia List Bool.
From Stdlib Require String.
From stdpp Require Import base list.
Import ListNotations.
Import String.StringSyntax.
Delimit Scope string_scope with string.

Local Open Scope Q_scope.

(** ** JavaScript values that may be [undefined], and thrown exceptions *)

Module Js.

(** The only exception the modelled code can raise: reading a property of
    [undefined] or [null]. *)
Inductive Error : Type := TypeError.

Inductive Exc (A : Type) : Type :=
| Ok (a : A)
| Throw (e : Error).
Arguments Ok {A} a.
Arguments Throw {A} e.

Definition bind {A B : Type} (m : Exc A) (k : A -> Exc B) : Exc B :=
  match m with
  | Ok a => k a
  | Throw e => Throw e
  end.

(** The object a property is read from, [v.p]: reading a property of
    [undefined] throws. *)
Definition obj {A : Type} (v : option A) : Exc A :=
  match v with
  | Some a => Ok a
  | None => Throw TypeError
  end.

(** Truthiness of an object reference that may be [undefined]. *)
Definition truthy {A : Type} (v : option A) : bool :=
  match v with Some _ => true | None => false end.

(** [<] on numbers. *)
Definition lt (a b : Q) : bool :=
  match a ?= b with Lt => true | _ => false end.

End Js.

(** [Exc] is used through stdpp's monad notations ([x ← m; k]). *)
#[global] Instance exc_ret : MRet Js.Exc := @Js.Ok.
#[global] Instance exc_bind : MBind Js.Exc := fun A B k m => Js.bind m k.

(** ** Data model ([types.ts]) *)

Record Landmark : Type := mkLandmark {
  x : Q;
  y : Q;
  z : Q;
  visibility : option Q
}.

(** [landmarks] is an array whose entries may be missing (a short array, or
    a hole); the array itself may be absent on a frame that did not come from
    the pose callback. *)
Record PoseFrame : Type := mkPoseFrame {
  timestamp : Q;
  landmarks : option (list (option Landmark))
}.

(** [arr[k]]: [undefined] outside the array and at a hole. *)
Definition at_index {A : Type} (arr : list (option A)) (k : nat) : option A :=
  match arr !! k with
  | Some (Some a) => Some a
  | _ => None
  end.

(** ** The nearest-frame search of the render tick *)

Section Search.

Variable history : list PoseFrame.
Variable targetTimestamp : Q.

Definition timeDiff (fr : PoseFrame) : Q :=
  Qabs (timestamp fr - targetTimestamp).

(** The [for (let f = 1; f < history.length; f++)] loop; [n] counts the
    iterations that are left, [n = history.length - f]. *)
Fixpoint searchLoop (n f : nat) (bestFrame : PoseFrame) (minDiff : Q)
  : Js.Exc (PoseFrame * Q) :=
  match n with
  | O => Js.Ok (bestFrame, minDiff)
  | S n' =>
      fr ← Js.obj (history !! f);
      let diff := Qabs (timestamp fr - targetTimestamp) in
      if Js.lt diff minDiff then
        searchLoop n' (S f) fr diff
      else if Js.lt minDiff diff then
        Js.Ok (bestFrame, minDiff)
      else
        searchLoop n' (S f) bestFrame minDiff
  end.

Definition findNearest : Js.Exc (PoseFrame * Q) :=
  bestFrame ← Js.obj (history !! 0%nat);
  let minDiff := Qabs (timestamp bestFrame - targetTimestamp) in
  searchLoop (length history - 1) 1 bestFrame minDiff.

End Search.

(** ** Constants of the visualizer *)

Definition POSE_CONNECTIONS : list (nat * nat) :=
  [ (11, 12); (11, 13); (13, 15); (12, 14); (14, 16);
    (11, 23); (12, 24); (23, 24);
    (23, 25); (25, 27); (24, 26); (26, 28);
    (27, 29); (29, 31); (27, 31);
    (28, 30); (30, 32); (28, 32);
    (15, 17); (17, 19); (19, 21); (15, 21);
    (16, 18); (18, 20); (20, 22); (16, 22);
    (9, 10) ]%nat.

Definition FACE_CONNECTIONS : list (nat * nat) :=
  [ (0, 1); (1, 2); (2, 3); (3, 7);
    (0, 4); (4, 5); (5, 6); (6, 8) ]%nat.

Definition ALL_CONNECTIONS : list (nat * nat) :=
  POSE_CONNECTIONS ++ FACE_CONNECTIONS.

Definition TRAIL_COUNT : nat := 15.
Definition MAX_DELAY_MS : Q := 2500.

(** ** Trail layers *)

(** The part of a [THREE.LineSegments] object the tick reads and writes:
    the [Float32Array] behind the position attribute, the attribute's
    [needsUpdate] flag and the object's [visible] flag. *)
Record Mesh : Type := mkMesh {
  positions : list Q;
  needsUpdate : bool;
  visible : bool
}.

(** [Math.pow(b, e)] for a base [b >= 0] and an exponent [e > 0]. *)
Definition Math_pow (b e : R) : R :=
  if Req_dec_T b 0%R then 0%R else Rpower b e.

(** The opacity given to the material of layer [i]. *)
Definition opacity (i : nat) : R :=
  Math_pow (1 - INR i / INR TRAIL_COUNT)%R (3 / 2)%R.

(** The object built for one layer by the construction loop: a zero-filled
    [Float32Array(ALL_CONNECTIONS.length * 2 * 3)]; a new three.js object is
    visible. *)
Definition newLineSegments : Mesh :=
  {| positions := replicate (length ALL_CONNECTIONS * 2 * 3) 0;
     needsUpdate := false;
     visible := true |}.

(** [for (let i = 0; i < TRAIL_COUNT; i++) skeletonMeshes.push(...)] *)
Definition skeletonMeshes : list Mesh :=
  map (fun _ => newLineSegments) (seq 0 TRAIL_COUNT).

(** ** The per-layer update of the render tick *)

(** [positions[pIdx++] = v]: a typed array ignores a write past its end. *)
Definition store (st : list Q * nat) (v : Q) : list Q * nat :=
  (<[snd st := v]> (fst st), S (snd st)).

(** The coordinate transform applied to a landmark before it is stored. *)
Definition toWorldX (lx : Q) : Q := (1 - lx - (1 # 2)) * 15.
Definition toWorldY (ly : Q) : Q := ((1 # 2) - ly) * 15.
Definition toWorldZ (lz : Q) : Q := - lz * 10.

(** The body of [for (const [a, b] of ALL_CONNECTIONS)]. *)
Definition writeSegment (lms : option (list (option Landmark)))
    (st : list Q * nat) (c : nat * nat) : Js.Exc (list Q * nat) :=
  arr ← Js.obj lms;
  let start := at_index arr (fst c) in
  let end_ := at_index arr (snd c) in
  if Js.truthy start && Js.truthy end_ then
    s ← Js.obj start;
    let st := store st (toWorldX (x s)) in
    let st := store st (toWorldY (y s)) in
    let st := store st (toWorldZ (z s)) in
    e ← Js.obj end_;
    let st := store st (toWorldX (x e)) in
    let st := store st (toWorldY (y e)) in
    let st := store st (toWorldZ (z e)) in
    mret st
  else
    mret st.

Fixpoint writeSegments (lms : option (list (option Landmark)))
    (conns : list (nat * nat)) (st : list Q * nat) : Js.Exc (list Q * nat) :=
  match conns with
  | [] => mret st
  | c :: conns' =>
      st' ← writeSegment lms st c;
      writeSegments lms conns' st'
  end.

Definition targetDelay (i : nat) : Q :=
  (inject_Z (Z.of_nat i) / inject_Z (Z.of_nat (TRAIL_COUNT - 1))) * MAX_DELAY_MS.

(** The callback of [skeletonMeshes.forEach((mesh, i) => ...)] once
    [targetTimestamp] is known: the search, then the update of the layer.
    A frame returned by the search is an object, so that the test
    [bestFrame && ...] bears on the landmark array and on the difference. *)
Definition drawLayer (history : list PoseFrame) (targetTimestamp : Q)
    (mesh : Mesh) : Js.Exc Mesh :=
  r ← findNearest history targetTimestamp;
  let bestFrame := fst r in
  let minDiff := snd r in
  if Js.truthy (landmarks bestFrame) && Js.lt minDiff 1000 then
    st ← writeSegments (landmarks bestFrame) ALL_CONNECTIONS (positions mesh, 0%nat);
    mret {| positions := fst st; needsUpdate := true; visible := true |}
  else
    mret {| positions := positions mesh;
            needsUpdate := needsUpdate mesh;
            visible := false |}.

(** The callback of [skeletonMeshes.forEach((mesh, i) => ...)]. *)
Definition updateLayer (history : list PoseFrame) (now : Q)
    (mesh : Mesh) (i : nat) : Js.Exc Mesh :=
  let targetTimestamp := now - targetDelay i in
  drawLayer history targetTimestamp mesh.

(** [forEach] with the running index. *)
Fixpoint forEachFrom (f : Mesh -> nat -> Js.Exc Mesh) (i : nat)
    (meshes : list Mesh) : Js.Exc (list Mesh) :=
  match meshes with
  | [] => mret []
  | mesh :: rest =>
      mesh' ← f mesh i;
      rest' ← forEachFrom f (S i) rest;
      mret (mesh' :: rest')
  end.

(** One render tick: the state of the layers after [animate] has run with
    [poseHistoryRef.current = history] and [Date.now() = now]. *)
Definition animate (history : list PoseFrame) (now : Q)
    (meshes : list Mesh) : Js.Exc (list Mesh) :=
  if (0 <? length history)%nat then
    forEachFrom (updateLayer history now) 0 meshes
  else
    mret meshes.

(** ** The history store (pose callback) *)

Record Results : Type := mkResults {
  poseLandmarks : option (list (option Landmark))
}.

(** [Array.prototype.shift]: drops the first element. *)
Definition shift {A : Type} (l : list A) : list A := tail l.

(** The callback given to [pose.onResults]: the new value of
    [historyRef.current] when [results] arrives at time [now]. *)
Definition onResults (historyRef : list PoseFrame)
    (ev : Results * Q) : list PoseFrame :=
  let results := fst ev in
  let now := snd ev in
  if Js.truthy (poseLandmarks results) then
    let newFrame := {| timestamp := now; landmarks := poseLandmarks results |} in
    let historyRef := historyRef ++ [newFrame] in
    if (200 <? length historyRef)%nat then shift historyRef else historyRef
  else
    historyRef.

(** ** Reference definitions used to state the properties of the search *)

(** The history is ordered by non-decreasing timestamp. *)
Fixpoint timeOrdered (history : list PoseFrame) : bool :=
  match history with
  | [] => true
  | fr :: rest =>
      match rest with
      | [] => true
      | fr' :: _ => Qle_bool (timestamp fr) (timestamp fr') && timeOrdered rest
      end
  end.

(** The search loop read as a recursion over the frames not yet visited. *)
Fixpoint scan (t : Q) (rest : list PoseFrame) (bestFrame : PoseFrame)
    (minDiff : Q) : PoseFrame * Q :=
  match rest with
  | [] => (bestFrame, minDiff)
  | fr :: rest' =>
      let diff := timeDiff t fr in
      if Js.lt diff minDiff then scan t rest' fr diff
      else if Js.lt minDiff diff then (bestFrame, minDiff)
      else scan t rest' bestFrame minDiff
  end.

(** The full linear scan of the specification: every frame is visited, and
    the best frame is replaced when a strictly smaller difference is met. *)
Fixpoint fullScanFrom (t : Q) (rest : list PoseFrame) (bestFrame : PoseFrame)
    (minDiff : Q) : PoseFrame * Q :=
  match rest with
  | [] => (bestFrame, minDiff)
  | fr :: rest' =>
      let diff := timeDiff t fr in
      if Js.lt diff minDiff then fullScanFrom t rest' fr diff
      else fullScanFrom t rest' bestFrame minDiff
  end.

Definition fullScan (history : list PoseFrame) (t : Q)
    : option (PoseFrame * Q) :=
  match history with
  | [] => None
  | fr :: rest => Some (fullScanFrom t rest fr (timeDiff t fr))
  end.

(** ** Reference definitions used to state the properties of the buffer *)

(** The six floats of one drawn segment. *)
Definition segmentCoords (s e : Landmark) : list Q :=
  [ toWorldX (x s); toWorldY (y s); toWorldZ (z s);
    toWorldX (x e); toWorldY (y e); toWorldZ (z e) ].

(** What one connection contributes to the buffer: its six floats when both
    end points are there, nothing otherwise. *)
Definition segmentOf (arr : list (option Landmark)) (c : nat * nat) : list Q :=
  match at_index arr (fst c), at_index arr (snd c) with
  | Some s, Some e => segmentCoords s e
  | _, _ => []
  end.

(** The floats written for a list of connections, in the order of writing. *)
Definition written (arr : list (option Landmark)) (conns : list (nat * nat))
    : list Q :=
  flat_map (segmentOf arr) conns.

(** A connection has landmark [k] as one of its end points. *)
Definition references (k : nat) (c : nat * nat) : bool :=
  (fst c =? k)%nat || (snd c =? k)%nat.

(** The frame built by the pose callback for an event, if it builds one. *)
Definition frameOf (ev : Results * Q) : option PoseFrame :=
  match poseLandmarks (fst ev) with
  | Some lms => Some {| timestamp := snd ev; landmarks := Some lms |}
  | None => None
  end.

(** A layer switched off by the tick: only its [visible] flag changes. *)
Definition hide (mesh : Mesh) : Mesh :=
  {| positions := positions mesh;
     needsUpdate := needsUpdate mesh;
     visible := false |}.

(** ** Sample data *)

Definition sampleLandmark : Landmark :=
  {| x := 1 # 4; y := 3 # 4; z := 1 # 10; visibility := None |}.

(** A complete detection: one landmark at each of the 33 indices. *)
Definition fullLandmarks : list (option Landmark) :=
  replicate 33 (Some sampleLandmark).

Definition fullFrame (t : Q) : PoseFrame :=
  {| timestamp := t; landmarks := Some fullLandmarks |}.

(** ** Runs of the pose callback and of the render tick *)

(** The history after the pose callback has handled a run of events, from
    the empty [historyRef.current] of start-up. *)
Definition historyAfter (events : list (Results * Q)) : list PoseFrame :=
  foldl onResults [] events.

(** The clock readings of a run of events never go back. *)
Fixpoint clockOrdered (events : list (Results * Q)) : bool :=
  match events with
  | [] => true
  | ev :: rest =>
      match rest with
      | [] => true
      | ev' :: _ => Qle_bool (snd ev) (snd ev') && clockOrdered rest
      end
  end.

(** Successive render ticks, each with the history and the clock reading it
    sees. *)
Fixpoint runTicks (ticks : list (list PoseFrame * Q)) (meshes : list Mesh)
    : Js.Exc (list Mesh) :=
  match ticks with
  | [] => mret meshes
  | tick :: ticks' =>
      meshes' ← animate (fst tick) (snd tick) meshes;
      runTicks ticks' meshes'
  end.

(** ** Colours of the layers *)

Definition neonColors : list Z := [0x00ffff; 0xbf00ff; 0xff00ff]%Z.

(** [neonColors[i % neonColors.length]], the colour given to the material of
    layer [i]; [None] stands for [undefined]. *)
Definition layerColor (i : nat) : option Z :=
  neonColors !! (i mod length neonColors)%nat.

(** ** Start-up of the application and its status line *)

(** A constructor found in one of the places the application looks in. *)
Inductive Ctor : Type := ctor (name : String.string).

(** What the mount effect of the application finds: the three places where
    the pose constructor and the camera constructor may be, whether the video
    element is mounted, and whether [camera.start()] resolves or rejects. *)
Record Host : Type := mkHost {
  mpPose_Pose : option Ctor;
  mpPose_default_Pose : option Ctor;
  window_Pose : option Ctor;
  videoRef_current : bool;
  cam_Camera : option Ctor;
  cam_default_Camera : option Ctor;
  window_Camera : option Ctor;
  start_resolves : bool
}.

(** [a || b] on values that may be [undefined]. *)
Definition orElse {A : Type} (a b : option A) : option A :=
  match a with Some _ => a | None => b end.

Definition PoseConstructor (host : Host) : option Ctor :=
  orElse (orElse (mpPose_Pose host) (mpPose_default_Pose host)) (window_Pose host).

Definition CameraConstructor (host : Host) : option Ctor :=
  orElse (orElse (cam_Camera host) (cam_default_Camera host)) (window_Camera host).

(** The state of the application that the status line reads, and whether a
    camera was created and started. *)
Record AppState : Type := mkAppState {
  isLoaded : bool;
  error : option String.string;
  camera_started : bool
}.

Definition initialState : AppState :=
  {| isLoaded := false; error := None; camera_started := false |}.

(** The mount effect, once the promise of [camera.start()] is settled. *)
Definition mountEffect (host : Host) : AppState :=
  if negb (Js.truthy (PoseConstructor host)) then
    {| isLoaded := false;
       error := Some "Failed to initialize Pose detection."%string;
       camera_started := false |}
  else if videoRef_current host then
    if Js.truthy (CameraConstructor host) then
      if start_resolves host then
        {| isLoaded := true; error := None; camera_started := true |}
      else
        {| isLoaded := false;
           error := Some "Camera access denied."%string;
           camera_started := true |}
    else initialState
  else initialState.

(** Truthiness of [error]: [null] and the empty string are falsy. *)
Definition truthyString (s : option String.string) : bool :=
  match s with
  | Some String.EmptyString => false
  | Some _ => true
  | None => false
  end.

Inductive Banner : Type :=
| DetectingForm
| ErrorText (msg : String.string)
| ModeAndTrail.

(** The three conditional blocks of the status line, in the order in which
    they are rendered. *)
Definition statusLine (st : AppState) : list Banner :=
  (if negb (isLoaded st) && negb (truthyString (error st))
   then [DetectingForm] else [])
  ++ (if truthyString (error st)
      then match error st with Some msg => [ErrorText msg] | None => [] end
      else [])
  ++ (if isLoaded st then [ModeAndTrail] else []).

(** ** Properties of the search *)

Lemma lt_spec (a b : Q) : reflect (a < b) (Js.lt a b).
Proof.
  unfold Js.lt. destruct (a ?= b) eqn:E; constructor; rewrite Qlt_alt; congruence.
Qed.

Section SearchFacts.

Variable t : Q.

Lemma timeOrdered_cons (fr : PoseFrame) (rest : list PoseFrame) :
  timeOrdered (fr :: rest) = true ->
  timeOrdered rest = true /\
  (forall fr', In fr' rest -> timestamp fr <= timestamp fr').
Proof.
  revert fr. induction rest as [|g rest IH]; intros fr H.
  - split; [reflexivity | intros ? []].
  - cbn [timeOrdered] in H. apply andb_prop in H as [Hle Hrest].
    apply Qle_bool_iff in Hle.
    split; [exact Hrest|].
    intros fr' [<- | Hin]; [exact Hle|].
    destruct (IH g Hrest) as [_ Hall].
    apply Qle_trans with (timestamp g); auto.
Qed.

(** The index loop visits exactly the frames from position [f] on. *)
Lemma searchLoop_scan (history : list PoseFrame) (n f : nat)
    (bestFrame : PoseFrame) (minDiff : Q) :
  (f + n = length history)%nat ->
  searchLoop history t n f bestFrame minDiff
  = Js.Ok (scan t (drop f history) bestFrame minDiff).
Proof.
  revert f bestFrame minDiff.
  induction n as [|n IH]; intros f bestFrame minDiff Hlen.
  - rewrite drop_ge by lia. reflexivity.
  - destruct (lookup_lt_is_Some_2 history f) as [fr Hfr]; [lia|].
    rewrite (drop_S _ _ _ Hfr). cbn [searchLoop scan].
    rewrite Hfr. cbn. unfold timeDiff.
    destruct (Js.lt _ minDiff); [apply IH; lia|].
    destruct (Js.lt minDiff _); [reflexivity|].
    apply IH; lia.
Qed.

Lemma findNearest_scan (fr : PoseFrame) (rest : list PoseFrame) :
  findNearest (fr :: rest) t = Js.Ok (scan t rest fr (timeDiff t fr)).
Proof.
  unfold findNearest. cbn.
  rewrite searchLoop_scan by (cbn; lia).
  reflexivity.
Qed.

(** A full scan that meets no strictly smaller difference keeps its
    candidate. *)
Lemma fullScanFrom_keep (rest : list PoseFrame) (best : PoseFrame) (d : Q) :
  (forall fr, In fr rest -> d <= timeDiff t fr) ->
  fullScanFrom t rest best d = (best, d).
Proof.
  induction rest as [|fr rest IH]; intros Hall; [reflexivity|].
  cbn [fullScanFrom].
  destruct (lt_spec (timeDiff t fr) d) as [Hlt|_].
  - exfalso. specialize (Hall fr (or_introl eq_refl)). lra.
  - apply IH. intros g Hg. apply Hall. now right.
Qed.

(** On a time-ordered history, leaving the loop at the first larger
    difference loses nothing. *)
Lemma scan_fullScanFrom (rest : list PoseFrame) (best : PoseFrame) :
  timeOrdered rest = true ->
  (forall fr, In fr rest -> timestamp best <= timestamp fr) ->
  scan t rest best (timeDiff t best)
  = fullScanFrom t rest best (timeDiff t best).
Proof.
  revert best. induction rest as [|fr rest IH]; intros best Hord Hbest;
    [reflexivity|].
  cbn [scan fullScanFrom].
  destruct (timeOrdered_cons _ _ Hord) as [Hord' Hfr].
  destruct (lt_spec (timeDiff t fr) (timeDiff t best)) as [Hlt|Hge].
  - apply IH; assumption.
  - destruct (lt_spec (timeDiff t best) (timeDiff t fr)) as [Hgt|Hle].
    + symmetry. apply fullScanFrom_keep.
      intros g Hg.
      pose proof (Hbest fr (or_introl eq_refl)) as Hbf.
      pose proof (Hfr g Hg) as Hfg.
      unfold timeDiff in *.
      revert Hgt.
      apply Qabs_case with (x := timestamp best - t);
      apply Qabs_case with (x := timestamp fr - t);
      apply Qabs_case with (x := timestamp g - t); intros; lra.
    + apply IH; [assumption|].
      intros g Hg. apply Hbest. now right.
Qed.

(** The full scan returns the first frame of least difference. *)
Lemma fullScanFrom_first_min (rest done mid : list PoseFrame)
    (best : PoseFrame) :
  (forall fr, In fr done -> timeDiff t best < timeDiff t fr) ->
  (forall fr, In fr mid -> timeDiff t best <= timeDiff t fr) ->
  exists pre b post,
    done ++ best :: mid ++ rest = pre ++ b :: post /\
    fullScanFrom t rest best (timeDiff t best) = (b, timeDiff t b) /\
    (forall fr, In fr pre -> timeDiff t b < timeDiff t fr) /\
    (forall fr, In fr post -> timeDiff t b <= timeDiff t fr).
Proof.
  revert done mid best.
  induction rest as [|fr rest IH]; intros done mid best Hdone Hmid.
  - exists done, best, mid. rewrite app_nil_r. auto.
  - cbn [fullScanFrom].
    destruct (lt_spec (timeDiff t fr) (timeDiff t best)) as [Hlt|Hge].
    + destruct (IH (done ++ best :: mid) [] fr) as (pre & b & post & E & R);
        [| intros ? [] |].
      * intros g Hg. apply in_app_or in Hg as [Hg | [<- | Hg]];
          [specialize (Hdone g Hg) | | specialize (Hmid g Hg)]; lra.
      * exists pre, b, post. split; [|exact R].
        rewrite <- E. cbn. rewrite <- app_assoc. reflexivity.
    + destruct (IH done (mid ++ [fr]) best) as (pre & b & post & E & R);
        [assumption | |].
      * intros g Hg. apply in_app_or in Hg as [Hg | [<- | []]];
          [apply Hmid; assumption | lra].
      * exists pre, b, post. split; [|exact R].
        rewrite <- E. rewrite <- app_assoc. reflexivity.
Qed.

End SearchFacts.

Lemma findNearest_ok (history : list PoseFrame) (t : Q) :
  history <> [] -> exists r, findNearest history t = Js.Ok r.
Proof.
  destruct history as [|fr rest]; [congruence|].
  intros _. rewrite findNearest_scan. eauto.
Qed.

(** ** Properties of the position buffer *)

Lemma store_inserts (vs : list Q) (buf : list Q) (p : nat) :
  foldl store (buf, p) vs = (list_inserts p vs buf, (p + length vs)%nat).
Proof.
  revert buf p. induction vs as [|v vs IH]; intros buf p; cbn.
  - f_equal. lia.
  - unfold store at 2. cbn. rewrite IH.
    rewrite list_insert_inserts_lt by lia. f_equal. lia.
Qed.

Lemma length_segmentOf (arr : list (option Landmark)) (c : nat * nat) :
  (length (segmentOf arr c) <= 6)%nat.
Proof.
  unfold segmentOf.
  destruct (at_index arr (fst c)), (at_index arr (snd c)); cbn; lia.
Qed.

Lemma length_written (arr : list (option Landmark)) (conns : list (nat * nat)) :
  (length (written arr conns) <= 6 * length conns)%nat.
Proof.
  unfold written. induction conns as [|c conns IH]; [cbn; lia|].
  cbn [flat_map length]. rewrite length_app.
  pose proof (length_segmentOf arr c). lia.
Qed.

Lemma writeSegment_inserts (arr : list (option Landmark)) (buf : list Q)
    (p : nat) (c : nat * nat) :
  writeSegment (Some arr) (buf, p) c
  = Js.Ok (list_inserts p (segmentOf arr c) buf,
           (p + length (segmentOf arr c))%nat).
Proof.
  unfold writeSegment, segmentOf. cbn.
  destruct (at_index arr (fst c)) as [s|], (at_index arr (snd c)) as [e|]; cbn;
    try (rewrite Nat.add_0_r; reflexivity).
  pose proof (store_inserts (segmentCoords s e) buf p) as H.
  cbn in H. rewrite H. reflexivity.
Qed.

Lemma writeSegments_inserts (arr : list (option Landmark))
    (conns : list (nat * nat)) (buf : list Q) (p : nat) :
  writeSegments (Some arr) conns (buf, p)
  = Js.Ok (list_inserts p (written arr conns) buf,
           (p + length (written arr conns))%nat).
Proof.
  revert buf p. induction conns as [|c conns IH]; intros buf p.
  - cbn. rewrite Nat.add_0_r. reflexivity.
  - cbn [writeSegments]. rewrite writeSegment_inserts. cbn.
    rewrite IH. unfold written. cbn [flat_map].
    rewrite list_inserts_app_l, length_app.
    rewrite (Nat.add_comm (length (segmentOf arr c)) p), Nat.add_assoc.
    reflexivity.
Qed.

(** ** Properties of the layer update and of the tick *)

Lemma drawLayer_found (history : list PoseFrame) (t : Q) (mesh : Mesh)
    (best : PoseFrame) (d : Q) :
  findNearest history t = Js.Ok (best, d) ->
  drawLayer history t mesh
  = Js.Ok match landmarks best with
          | Some arr =>
              if Js.lt d 1000 then
                {| positions :=
                     list_inserts 0 (written arr ALL_CONNECTIONS) (positions mesh);
                   needsUpdate := true;
                   visible := true |}
              else hide mesh
          | None => hide mesh
          end.
Proof.
  intros Hfind. unfold drawLayer. rewrite Hfind.
  unfold mbind, exc_bind. cbn [Js.bind fst snd].
  destruct (landmarks best) as [arr|]; [|reflexivity].
  cbn [Js.truthy andb].
  destruct (Js.lt d 1000); [|reflexivity].
  rewrite writeSegments_inserts. reflexivity.
Qed.

Lemma drawLayer_ok (history : list PoseFrame) (t : Q) (mesh : Mesh) :
  history <> [] ->
  exists mesh', drawLayer history t mesh = Js.Ok mesh' /\
                length (positions mesh') = length (positions mesh).
Proof.
  intros Hne. destruct (findNearest_ok history t Hne) as [[best d] Hfind].
  rewrite (drawLayer_found _ _ _ _ _ Hfind).
  eexists; split; [reflexivity|].
  destruct (landmarks best); [destruct (Js.lt d 1000)|]; cbn;
    rewrite ?length_inserts; reflexivity.
Qed.

Lemma forEachFrom_ok (f : Mesh -> nat -> Js.Exc Mesh) (i : nat)
    (meshes : list Mesh) :
  (forall mesh k, exists mesh', f mesh k = Js.Ok mesh') ->
  exists meshes',
    forEachFrom f i meshes = Js.Ok meshes' /\
    length meshes' = length meshes /\
    (forall k mesh, meshes !! k = Some mesh ->
       exists mesh', meshes' !! k = Some mesh' /\ f mesh (i + k)%nat = Js.Ok mesh').
Proof.
  intros Hf. revert i.
  induction meshes as [|mesh rest IH]; intros i.
  - exists []. repeat split. intros k m Hk. discriminate.
  - destruct (Hf mesh i) as [mesh' Hmesh].
    destruct (IH (S i)) as (rest' & Hrest & Hlen & Hall).
    exists (mesh' :: rest'). cbn. rewrite Hmesh. cbn. rewrite Hrest. cbn.
    split; [reflexivity|]. split; [now rewrite Hlen|].
    intros [|k] m Hk; cbn in Hk.
    + injection Hk as <-. exists mesh'. rewrite Nat.add_0_r. auto.
    + destruct (Hall k m Hk) as (m' & Hm' & Hfm).
      exists m'. split; [exact Hm'|].
      rewrite <- Hfm. f_equal. lia.
Qed.

Lemma animate_layers (history : list PoseFrame) (now : Q) (meshes : list Mesh) :
  history <> [] ->
  exists meshes',
    animate history now meshes = Js.Ok meshes' /\
    length meshes' = length meshes /\
    (forall k mesh, meshes !! k = Some mesh ->
       exists mesh', meshes' !! k = Some mesh' /\
                     updateLayer history now mesh k = Js.Ok mesh' /\
                     length (positions mesh') = length (positions mesh)).
Proof.
  intros Hne. unfold animate.
  destruct history as [|fr rest] eqn:E; [congruence|]. cbn [length Nat.ltb Nat.leb].
  rewrite <- E in *.
  destruct (forEachFrom_ok (updateLayer history now) 0 meshes)
    as (meshes' & Hrun & Hlen & Hall).
  - intros mesh k. unfold updateLayer.
    destruct (drawLayer_ok history (now - targetDelay k) mesh Hne) as (m' & Hm' & _).
    eauto.
  - exists meshes'. split; [exact Hrun|]. split; [exact Hlen|].
    intros k mesh Hk. destruct (Hall k mesh Hk) as (m' & Hm' & Hup).
    exists m'. cbn in Hup. repeat split; try assumption.
    unfold updateLayer in Hup.
    destruct (drawLayer_ok history (now - targetDelay k) mesh Hne) as (m'' & Hm'' & Hl).
    congruence.
Qed.

(** ** The nearest-frame search *)

(** C1: on a non-empty history ordered by non-decreasing timestamp, the
    search of the render tick returns a frame of the history of least
    absolute difference to the target, and among the frames of least
    difference the first one met: every frame before it is strictly farther
    from the target, every frame after it is at least as far. *)
Theorem findNearest_first_minimum (history : list PoseFrame) (t : Q) :
  history <> [] ->
  timeOrdered history = true ->
  exists pre best post,
    history = pre ++ best :: post /\
    findNearest history t = Js.Ok (best, timeDiff t best) /\
    (forall fr, In fr pre -> timeDiff t best < timeDiff t fr) /\
    (forall fr, In fr post -> timeDiff t best <= timeDiff t fr).
Proof.
  intros Hne Hord. destruct history as [|fr rest]; [congruence|].
  rewrite findNearest_scan.
  destruct (timeOrdered_cons _ _ Hord) as [Hrest Hfr].
  rewrite scan_fullScanFrom by assumption.
  destruct (fullScanFrom_first_min t rest [] [] fr) as (pre & b & post & E & R & Hpre & Hpost);
    [intros ? [] | intros ? [] |].
  exists pre, b, post. cbn in E. rewrite R. auto.
Qed.

Lemma findNearest_first_minimum_witness :
  exists pre best post,
    [fullFrame 1000; fullFrame 1030] = pre ++ best :: post /\
    findNearest [fullFrame 1000; fullFrame 1030] 1010
    = Js.Ok (best, timeDiff 1010 best) /\
    (forall fr, In fr pre -> timeDiff 1010 best < timeDiff 1010 fr) /\
    (forall fr, In fr post -> timeDiff 1010 best <= timeDiff 1010 fr).
Proof.
  apply (findNearest_first_minimum [fullFrame 1000; fullFrame 1030] 1010).
  - discriminate.
  - reflexivity.
Defined.

(** The scenario of the specification: the frame at 1000 (difference 10) is
    preferred to the frame at 1030 (difference 20). *)
Example findNearest_scenario :
  findNearest [fullFrame 1000; fullFrame 1030] 1010 = Js.Ok (fullFrame 1000, 10).
Proof. reflexivity. Qed.

(** C2: on a history with non-decreasing timestamps the search that leaves
    the loop at the first difference larger than the best one returns the
    very pair (frame, difference) of the full linear scan; the full scan has
    no result only on the empty history, where the search has none either. *)
Theorem early_exit_equals_full_scan (history : list PoseFrame) (t : Q) :
  timeOrdered history = true ->
  findNearest history t
  = match fullScan history t with
    | Some r => Js.Ok r
    | None => Js.Throw Js.TypeError
    end.
Proof.
  intros Hord. destruct history as [|fr rest]; [reflexivity|].
  rewrite findNearest_scan. cbn [fullScan].
  destruct (timeOrdered_cons _ _ Hord) as [Hrest Hfr].
  now rewrite scan_fullScanFrom.
Qed.

Lemma early_exit_equals_full_scan_witness :
  findNearest [fullFrame 0; fullFrame 40; fullFrame 40; fullFrame 90] 50
  = match fullScan [fullFrame 0; fullFrame 40; fullFrame 40; fullFrame 90] 50 with
    | Some r => Js.Ok r
    | None => Js.Throw Js.TypeError
    end.
Proof.
  apply (early_exit_equals_full_scan
           [fullFrame 0; fullFrame 40; fullFrame 40; fullFrame 90] 50).
  reflexivity.
Defined.

(** Without the order of the timestamps the two scans differ. *)
Example early_exit_needs_order :
  findNearest [fullFrame 10; fullFrame 30; fullFrame 0] 0 = Js.Ok (fullFrame 10, 10) /\
  fullScan [fullFrame 10; fullFrame 30; fullFrame 0] 0 = Some (fullFrame 0, 0).
Proof. split; reflexivity. Qed.

(** ** Visibility of the layers *)

(** C3: on a render tick, a layer whose nearest sample lies 1000 ms or more
    from the layer's target timestamp is set invisible, whatever the
    landmarks of the sampled frame are; its position buffer is left as it
    was. *)
Theorem stale_sample_hides_layer (history : list PoseFrame) (now : Q)
    (meshes : list Mesh) (i : nat) (mesh : Mesh) (best : PoseFrame) (d : Q) :
  meshes !! i = Some mesh ->
  findNearest history (now - targetDelay i) = Js.Ok (best, d) ->
  1000 <= d ->
  exists meshes' mesh',
    animate history now meshes = Js.Ok meshes' /\
    meshes' !! i = Some mesh' /\
    visible mesh' = false /\
    positions mesh' = positions mesh.
Proof.
  intros Hi Hfind Hd.
  assert (Hne : history <> []) by (intros ->; discriminate Hfind).
  destruct (animate_layers history now meshes Hne) as (meshes' & Hrun & _ & Hall).
  destruct (Hall i mesh Hi) as (mesh' & Hmesh' & Hup & _).
  exists meshes', mesh'. split; [exact Hrun|]. split; [exact Hmesh'|].
  unfold updateLayer in Hup. rewrite (drawLayer_found _ _ _ _ _ Hfind) in Hup.
  destruct (lt_spec d 1000) as [Hlt|_]; [lra|].
  assert (E : mesh' = hide mesh) by (destruct (landmarks best); congruence).
  rewrite E. split; reflexivity.
Qed.

(** The scenario of the specification: one complete frame at time 0, a tick
    at 2000 ms, the layer of delay 0. *)
Lemma stale_sample_hides_layer_witness :
  exists meshes' mesh',
    animate [fullFrame 0] 2000 skeletonMeshes = Js.Ok meshes' /\
    meshes' !! 0%nat = Some mesh' /\
    visible mesh' = false /\
    positions mesh' = positions newLineSegments.
Proof.
  apply (stale_sample_hides_layer [fullFrame 0] 2000 skeletonMeshes 0
           newLineSegments (fullFrame 0)
           (timeDiff (2000 - targetDelay 0) (fullFrame 0))).
  - reflexivity.
  - reflexivity.
  - vm_compute. discriminate.
Defined.

(** C5 as stated fails: with an empty history the tick does not touch the
    layers, and the layers built at start-up are visible. *)
Lemma empty_history_does_not_hide :
  ~ (forall (now : Q) (meshes meshes' : list Mesh),
       animate [] now meshes = Js.Ok meshes' ->
       forall mesh, In mesh meshes' -> visible mesh = false).
Proof.
  intros H.
  specialize (H 0 skeletonMeshes skeletonMeshes eq_refl newLineSegments).
  discriminate H. now left.
Qed.

(** C5, amended: on a render tick with an empty history the search has no
    result for any target timestamp and the tick leaves every layer as it
    was: no buffer is written and no [visible] flag is changed. *)
Theorem empty_history_tick_unchanged (now : Q) (meshes : list Mesh) :
  animate [] now meshes = Js.Ok meshes /\
  (forall t r, findNearest [] t <> Js.Ok r) /\
  (forall t, fullScan [] t = None).
Proof.
  split; [reflexivity|]. split; [|reflexivity].
  intros t r. discriminate.
Qed.

(** ** Delay of the layers *)

(** C7: with 15 layers and a maximal delay of 2500 ms, the tick at time
    [now] updates layer [i] from the sample nearest to
    [now - i / 14 * 2500]. *)
Theorem layer_delay_spread (history : list PoseFrame) (now : Q)
    (meshes : list Mesh) (i : nat) (mesh : Mesh) :
  history <> [] ->
  length meshes = 15%nat ->
  meshes !! i = Some mesh ->
  targetDelay i = inject_Z (Z.of_nat i) / 14 * 2500 /\
  exists meshes' mesh',
    animate history now meshes = Js.Ok meshes' /\
    meshes' !! i = Some mesh' /\
    drawLayer history (now - inject_Z (Z.of_nat i) / 14 * 2500) mesh
    = Js.Ok mesh'.
Proof.
  intros Hne _ Hi. split; [reflexivity|].
  destruct (animate_layers history now meshes Hne) as (meshes' & Hrun & _ & Hall).
  destruct (Hall i mesh Hi) as (mesh' & Hmesh' & Hup & _).
  exists meshes', mesh'. auto.
Qed.

Lemma layer_delay_spread_witness :
  targetDelay 7 = inject_Z (Z.of_nat 7) / 14 * 2500 /\
  exists meshes' mesh',
    animate [fullFrame 1000] 2000 skeletonMeshes = Js.Ok meshes' /\
    meshes' !! 7%nat = Some mesh' /\
    drawLayer [fullFrame 1000] (2000 - inject_Z (Z.of_nat 7) / 14 * 2500)
      newLineSegments
    = Js.Ok mesh'.
Proof.
  apply (layer_delay_spread [fullFrame 1000] 2000 skeletonMeshes 7 newLineSegments).
  - discriminate.
  - reflexivity.
  - reflexivity.
Defined.

(** The delays run from 0 for the first layer to the maximal delay for the
    last one. *)
Example targetDelay_ends :
  targetDelay 0 == 0 /\ targetDelay 7 == 1250 /\ targetDelay 14 == MAX_DELAY_MS.
Proof. repeat split. Qed.

(** ** Totality of the tick *)

(** C8: whatever the history and the time of the tick, the tick raises no
    exception: it returns the layers, as many as before and each with a
    buffer of unchanged length; and at every point of the loop over the
    connections the write index is at most six times the number of
    connections visited, hence within the 2 x |connections| x 3 floats of
    the buffer. *)
Theorem tick_is_total (history : list PoseFrame) (now : Q) (meshes : list Mesh) :
  (exists meshes',
     animate history now meshes = Js.Ok meshes' /\
     length meshes' = length meshes /\
     (forall k mesh mesh',
        meshes !! k = Some mesh -> meshes' !! k = Some mesh' ->
        length (positions mesh') = length (positions mesh))) /\
  (forall (arr : list (option Landmark)) (buf : list Q) (n : nat),
     exists buf' pIdx,
       writeSegments (Some arr) (take n ALL_CONNECTIONS) (buf, 0%nat)
       = Js.Ok (buf', pIdx) /\
       length buf' = length buf /\
       (pIdx <= 6 * n)%nat /\
       (pIdx <= length ALL_CONNECTIONS * 2 * 3)%nat).
Proof.
  split.
  - destruct history as [|fr rest] eqn:E.
    + exists meshes. split; [reflexivity|]. split; [reflexivity|]. congruence.
    + rewrite <- E. assert (Hne : history <> []) by (rewrite E; discriminate).
      destruct (animate_layers history now meshes Hne) as (meshes' & Hrun & Hlen & Hall).
      exists meshes'. repeat split; try assumption.
      intros k mesh mesh' Hk Hk'.
      destruct (Hall k mesh Hk) as (m' & Hm' & _ & Hl). congruence.
  - intros arr buf n. rewrite writeSegments_inserts.
    eexists _, _. split; [reflexivity|].
    rewrite length_inserts. split; [reflexivity|].
    pose proof (length_written arr (take n ALL_CONNECTIONS)) as Hw.
    rewrite length_take in Hw. cbn [Nat.add]. lia.
Qed.

(** ** Segments written to the buffer *)

Lemma inserts_prefix (vs buf : list Q) :
  (length vs <= length buf)%nat ->
  list_inserts 0 vs buf = vs ++ drop (length vs) buf.
Proof.
  intros Hle. rewrite <- (take_drop (length vs) buf) at 1.
  apply list_inserts_0_r. rewrite length_take. lia.
Qed.

Lemma inserts_whole (vs buf : list Q) :
  length vs = length buf -> list_inserts 0 vs buf = vs.
Proof.
  intros Hlen. rewrite inserts_prefix by lia.
  rewrite drop_ge by lia. apply app_nil_r.
Qed.

(** A connection with a missing end point contributes nothing. *)
Lemma segmentOf_missing (arr : list (option Landmark)) (k : nat) (c : nat * nat) :
  at_index arr k = None -> references k c = true -> segmentOf arr c = [].
Proof.
  intros Hk Hc. unfold references in Hc. unfold segmentOf.
  apply orb_prop in Hc as [Hc | Hc]; apply Nat.eqb_eq in Hc; rewrite Hc, Hk;
    [reflexivity|].
  now destruct (at_index arr (fst c)).
Qed.

Lemma written_without (arr : list (option Landmark)) (k : nat)
    (conns : list (nat * nat)) :
  at_index arr k = None ->
  written arr conns
  = written arr (List.filter (fun c => negb (references k c)) conns).
Proof.
  intros Hk. unfold written.
  induction conns as [|c conns IH]; [reflexivity|].
  cbn [flat_map List.filter].
  destruct (references k c) eqn:Hc; cbn [negb flat_map].
  - rewrite (segmentOf_missing arr k c Hk Hc). exact IH.
  - now rewrite IH.
Qed.

(** When every connection is drawn, connection [j] occupies the six floats
    from index [6 * j] on. *)
Lemma written_slot (arr : list (option Landmark)) (conns : list (nat * nat))
    (j : nat) (c : nat * nat) :
  (forall c', In c' conns -> length (segmentOf arr c') = 6%nat) ->
  conns !! j = Some c ->
  take 6 (drop (6 * j) (written arr conns)) = segmentOf arr c.
Proof.
  unfold written. revert j.
  induction conns as [|c0 conns IH]; intros j Hall Hj; [discriminate|].
  cbn [flat_map].
  assert (H0 : length (segmentOf arr c0) = 6%nat) by (apply Hall; now left).
  destruct j as [|j]; cbn in Hj.
  - injection Hj as <-. rewrite Nat.mul_0_r. cbn [drop].
    now apply take_app_length'.
  - replace (6 * S j)%nat with (6 + 6 * j)%nat by lia.
    rewrite drop_app_add' by now symmetry.
    apply IH; [|exact Hj]. intros c' Hc'. apply Hall. now right.
Qed.

Lemma written_full_length (arr : list (option Landmark))
    (conns : list (nat * nat)) :
  (forall c', In c' conns -> length (segmentOf arr c') = 6%nat) ->
  length (written arr conns) = (6 * length conns)%nat.
Proof.
  unfold written. induction conns as [|c conns IH]; intros Hall; [reflexivity|].
  cbn [flat_map length]. rewrite length_app.
  rewrite IH by (intros c' Hc'; apply Hall; now right).
  rewrite (Hall c) by now left. lia.
Qed.

(** The end points of the connections are landmark indices below 33. *)
Lemma connection_indices (c : nat * nat) :
  In c ALL_CONNECTIONS -> (fst c < 33)%nat /\ (snd c < 33)%nat.
Proof.
  assert (H : forallb (fun c => (fst c <? 33)%nat && (snd c <? 33)%nat)
                      ALL_CONNECTIONS = true) by reflexivity.
  rewrite forallb_forall in H. intros Hc.
  specialize (H c Hc). apply andb_prop in H as [Ha Hb].
  split; now apply Nat.ltb_lt.
Qed.

(** C6: when a layer is drawn from a sampled frame (difference below
    1000 ms, landmark array [arr]) into its buffer of 2 x |connections| x 3
    floats: if all 33 landmarks are there, every connection writes its two
    points, six floats, connection [j] at the indices from [6 * j] on, and the
    writes fill the buffer exactly; if landmark [k] is missing, the
    connections that reference [k] write nothing: the buffer receives what the
    remaining connections write, and behind that it keeps what it held before
    the tick, at least six floats for each omitted connection. *)
Theorem segment_completeness (history : list PoseFrame) (t : Q) (mesh : Mesh)
    (best : PoseFrame) (d : Q) (arr : list (option Landmark)) :
  findNearest history t = Js.Ok (best, d) ->
  d < 1000 ->
  landmarks best = Some arr ->
  length (positions mesh) = (length ALL_CONNECTIONS * 2 * 3)%nat ->
  exists mesh',
    drawLayer history t mesh = Js.Ok mesh' /\
    visible mesh' = true /\
    needsUpdate mesh' = true /\
    ((forall k, (k < 33)%nat -> is_Some (at_index arr k)) ->
     positions mesh' = written arr ALL_CONNECTIONS /\
     length (written arr ALL_CONNECTIONS) = (2 * length ALL_CONNECTIONS * 3)%nat /\
     forall j c, ALL_CONNECTIONS !! j = Some c ->
       exists s e,
         at_index arr (fst c) = Some s /\
         at_index arr (snd c) = Some e /\
         take 6 (drop (6 * j) (positions mesh')) = segmentCoords s e) /\
    (forall k, at_index arr k = None ->
     let kept := List.filter (fun c => negb (references k c)) ALL_CONNECTIONS in
     let omitted := List.filter (references k) ALL_CONNECTIONS in
     positions mesh'
     = written arr kept ++ drop (length (written arr kept)) (positions mesh) /\
     (length (written arr kept) + 6 * length omitted
      <= length (positions mesh))%nat).
Proof.
  intros Hfind Hd Harr Hbuf.
  rewrite (drawLayer_found _ _ _ _ _ Hfind), Harr.
  destruct (lt_spec d 1000) as [_|Hge]; [|contradiction].
  eexists. split; [reflexivity|]. cbn [visible needsUpdate positions].
  split; [reflexivity|]. split; [reflexivity|].
  pose proof (length_written arr ALL_CONNECTIONS) as Hlen.
  split.
  - intros Hfull.
    assert (Hseg : forall c, In c ALL_CONNECTIONS ->
              exists s e, at_index arr (fst c) = Some s /\
                          at_index arr (snd c) = Some e /\
                          segmentOf arr c = segmentCoords s e).
    { intros c Hc. destruct (connection_indices c Hc) as [Ha Hb].
      destruct (Hfull _ Ha) as [s Hs], (Hfull _ Hb) as [e He].
      exists s, e. unfold segmentOf. rewrite Hs, He. auto. }
    assert (Hsix : forall c, In c ALL_CONNECTIONS ->
              length (segmentOf arr c) = 6%nat).
    { intros c Hc. destruct (Hseg c Hc) as (s & e & _ & _ & ->). reflexivity. }
    pose proof (written_full_length arr ALL_CONNECTIONS Hsix) as Hw.
    rewrite inserts_whole by lia.
    split; [reflexivity|]. split; [lia|].
    intros j c Hj.
    assert (Hc : In c ALL_CONNECTIONS)
      by (apply list_elem_of_In, list_elem_of_lookup; eauto).
    destruct (Hseg c Hc) as (s & e & Hs & He & Hce).
    exists s, e. rewrite <- Hce. auto using written_slot.
  - intros k Hk.
    rewrite (written_without arr k ALL_CONNECTIONS Hk).
    pose proof (filter_length (references k) ALL_CONNECTIONS) as Hsplit.
    set (kept := List.filter (fun c => negb (references k c)) ALL_CONNECTIONS) in *.
    set (omitted := List.filter (references k) ALL_CONNECTIONS) in *.
    pose proof (length_written arr kept) as Hkept.
    split; [apply inserts_prefix|]; lia.
Qed.

Lemma segment_completeness_witness :
  exists mesh',
    drawLayer [fullFrame 1000] 1000 newLineSegments = Js.Ok mesh' /\
    visible mesh' = true /\
    needsUpdate mesh' = true /\
    ((forall k, (k < 33)%nat -> is_Some (at_index fullLandmarks k)) ->
     positions mesh' = written fullLandmarks ALL_CONNECTIONS /\
     length (written fullLandmarks ALL_CONNECTIONS)
     = (2 * length ALL_CONNECTIONS * 3)%nat /\
     forall j c, ALL_CONNECTIONS !! j = Some c ->
       exists s e,
         at_index fullLandmarks (fst c) = Some s /\
         at_index fullLandmarks (snd c) = Some e /\
         take 6 (drop (6 * j) (positions mesh')) = segmentCoords s e) /\
    (forall k, at_index fullLandmarks k = None ->
     let kept := List.filter (fun c => negb (references k c)) ALL_CONNECTIONS in
     let omitted := List.filter (references k) ALL_CONNECTIONS in
     positions mesh'
     = written fullLandmarks kept
       ++ drop (length (written fullLandmarks kept)) (positions newLineSegments) /\
     (length (written fullLandmarks kept) + 6 * length omitted
      <= length (positions newLineSegments))%nat).
Proof.
  apply (segment_completeness [fullFrame 1000] 1000 newLineSegments
           (fullFrame 1000) (timeDiff 1000 (fullFrame 1000)) fullLandmarks).
  - reflexivity.
  - reflexivity.
  - reflexivity.
  - reflexivity.
Defined.

(** A frame without landmark 11, drawn into a buffer that held 7
    everywhere: the three connections at landmark 11 are left out, the 32
    others are written one after the other from index 0 on, and the last 18
    floats keep their old value. *)
Example partial_frame_scenario :
  let arr := <[11%nat := None]> fullLandmarks in
  let old := {| positions := replicate 210 7; needsUpdate := false; visible := false |} in
  exists mesh',
    drawLayer [{| timestamp := 1000; landmarks := Some arr |}] 1000 old
    = Js.Ok mesh' /\
    take 192 (positions mesh')
    = flat_map (fun _ => segmentCoords sampleLandmark sampleLandmark) (seq 0 32) /\
    drop 192 (positions mesh') = replicate 18 7.
Proof. eexists. split; [reflexivity|]. split; reflexivity. Qed.

(** ** Coordinate transform *)

(** C9: for a landmark with x and y in [0, 1] the stored world x is
    (0.5 - x) * 15 and the stored world y is (0.5 - y) * 15; the centre
    (0.5, 0.5) goes to (0, 0); world x decreases strictly when x grows and
    mirroring x about the centre negates it; both world coordinates stay
    within [-7.5, 7.5]. *)
Theorem world_transform (lx ly : Q) :
  0 <= lx <= 1 ->
  0 <= ly <= 1 ->
  toWorldX lx == ((1 # 2) - lx) * 15 /\
  toWorldY ly == ((1 # 2) - ly) * 15 /\
  toWorldX (1 # 2) == 0 /\
  toWorldY (1 # 2) == 0 /\
  (forall lx', lx < lx' -> toWorldX lx' < toWorldX lx) /\
  toWorldX (1 - lx) == - toWorldX lx /\
  - (15 # 2) <= toWorldX lx <= 15 # 2 /\
  - (15 # 2) <= toWorldY ly <= 15 # 2.
Proof.
  intros Hx Hy. unfold toWorldX, toWorldY.
  repeat split; try intros lx' Hlt; lra.
Qed.

Lemma world_transform_witness :
  toWorldX (1 # 4) == ((1 # 2) - (1 # 4)) * 15 /\
  toWorldY (3 # 4) == ((1 # 2) - (3 # 4)) * 15 /\
  toWorldX (1 # 2) == 0 /\
  toWorldY (1 # 2) == 0 /\
  (forall lx', 1 # 4 < lx' -> toWorldX lx' < toWorldX (1 # 4)) /\
  toWorldX (1 - (1 # 4)) == - toWorldX (1 # 4) /\
  - (15 # 2) <= toWorldX (1 # 4) <= 15 # 2 /\
  - (15 # 2) <= toWorldY (3 # 4) <= 15 # 2.
Proof.
  apply (world_transform (1 # 4) (3 # 4)); lra.
Defined.

(** ** Opacity of the layers *)

Lemma opacity_base (i : nat) :
  (i < 15)%nat -> (0 < 1 - INR i / INR TRAIL_COUNT <= 1)%R.
Proof.
  intros Hi. unfold TRAIL_COUNT.
  apply lt_INR in Hi. pose proof (pos_INR i) as H0.
  replace (INR 15) with 15%R in * by (simpl; Lra.lra).
  split; Lra.lra.
Qed.

Lemma opacity_Rpower (i : nat) :
  (i < 15)%nat -> opacity i = Rpower (1 - INR i / 15) (3 / 2).
Proof.
  intros Hi. pose proof (opacity_base i Hi) as Hb.
  unfold opacity, Math_pow.
  destruct (Req_dec_T _ 0%R) as [E|_]; [Lra.lra|].
  unfold TRAIL_COUNT. f_equal. f_equal. f_equal. simpl. Lra.lra.
Qed.

(** C10: for the layers 0 to 14 the opacity given at construction is
    (1 - i/15) to the power 1.5; it lies in (0, 1], and it is strictly
    smaller for every later layer. *)
Theorem opacity_fades (i : nat) :
  (i < 15)%nat ->
  opacity i = Rpower (1 - INR i / 15) (3 / 2) /\
  (0 < opacity i <= 1)%R /\
  (forall j, (i < j < 15)%nat -> (opacity j < opacity i)%R).
Proof.
  intros Hi. split; [now apply opacity_Rpower|].
  pose proof (opacity_base i Hi) as Hb.
  assert (Hi15 : INR TRAIL_COUNT = 15%R) by (unfold TRAIL_COUNT; simpl; Lra.lra).
  rewrite Hi15 in Hb.
  rewrite opacity_Rpower by assumption. split.
  - split; [apply exp_pos|].
    replace 1%R with (Rpower 1 (3 / 2)) at 2
      by (unfold Rpower; rewrite ln_1, Rmult_0_r; apply exp_0).
    apply Rle_Rpower_l; Lra.lra.
  - intros j [Hij Hj]. rewrite opacity_Rpower by assumption.
    pose proof (opacity_base j Hj) as Hbj. rewrite Hi15 in Hbj.
    apply lt_INR in Hij.
    apply Rlt_Rpower_l; [Lra.lra|]. split; Lra.lra.
Qed.

Lemma opacity_fades_witness :
  opacity 3 = Rpower (1 - INR 3 / 15) (3 / 2) /\
  (0 < opacity 3 <= 1)%R /\
  (forall j, (3 < j < 15)%nat -> (opacity j < opacity 3)%R).
Proof.
  apply (opacity_fades 3). lia.
Defined.

(** ** The bounded history *)

Lemma onResults_none (h : list PoseFrame) (ev : Results * Q) :
  frameOf ev = None -> onResults h ev = h.
Proof.
  unfold frameOf, onResults. now destruct (poseLandmarks (fst ev)).
Qed.

Lemma onResults_some (h : list PoseFrame) (ev : Results * Q) (fr : PoseFrame) :
  frameOf ev = Some fr ->
  onResults h ev
  = if (200 <? length (h ++ [fr]))%nat then shift (h ++ [fr]) else h ++ [fr].
Proof.
  unfold frameOf, onResults.
  destruct (poseLandmarks (fst ev)); [|discriminate].
  now intros [= <-].
Qed.

(** The history after a run of events holds the last 200 frames built. *)
Lemma history_last_frames (events : list (Results * Q)) :
  foldl onResults [] events
  = drop (length (omap frameOf events) - 200) (omap frameOf events).
Proof.
  induction events as [|ev events IH] using rev_ind; [reflexivity|].
  rewrite foldl_snoc, omap_app, IH.
  set (frames := omap frameOf events).
  assert (Hlast : omap frameOf [ev]
                  = match frameOf ev with Some fr => [fr] | None => [] end)
    by reflexivity.
  rewrite Hlast. clear Hlast.
  destruct (frameOf ev) as [fr|] eqn:Hev.
  - rewrite (onResults_some _ _ _ Hev), !length_app, length_drop.
    cbn [length].
    destruct (Nat.ltb_spec 200 (length frames - (length frames - 200) + 1)) as [Hgt|Hle].
    + assert (Hm : (length frames - 200 < length frames)%nat) by lia.
      destruct (drop (length frames - 200) frames) as [|fr0 kept] eqn:Hdrop.
      { apply (f_equal length) in Hdrop. rewrite length_drop in Hdrop.
        cbn in Hdrop. lia. }
      replace (length frames + 1 - 200)%nat with (length frames - 200 + 1)%nat
        by lia.
      rewrite drop_app_le by lia.
      rewrite <- (drop_drop frames 1 (length frames - 200)), Hdrop.
      reflexivity.
    + replace (length frames - 200)%nat with 0%nat by lia.
      replace (length frames + 1 - 200)%nat with 0%nat by lia.
      reflexivity.
  - rewrite (onResults_none _ _ Hev), app_nil_r. reflexivity.
Qed.

(** C4: after any run of the pose callback from the empty history, with
    [N] the number of frames appended (results that carry landmarks), the
    history has length min(N, 200) and holds exactly the last 200 frames
    appended (all of them when there are fewer), in the order of arrival; and
    an append that takes the length above 200 drops the oldest frame, at the
    head. *)
Theorem history_bound (events : list (Results * Q)) :
  let frames := omap frameOf events in
  let history := foldl onResults [] events in
  length history = Nat.min (length frames) 200 /\
  history = drop (length frames - 200) frames /\
  (forall h ev fr,
     frameOf ev = Some fr ->
     (200 < length (h ++ [fr]))%nat ->
     onResults h ev = drop 1 h ++ [fr]).
Proof.
  intros frames history.
  assert (Hh : history = drop (length frames - 200) frames)
    by apply history_last_frames.
  split; [rewrite Hh, length_drop; lia|]. split; [exact Hh|].
  intros h ev fr Hev Hlen.
  rewrite (onResults_some _ _ _ Hev).
  destruct (Nat.ltb_spec 200 (length (h ++ [fr]))) as [_|Hle]; [|lia].
  destruct h as [|fr0 h]; [cbn in Hlen; lia|]. reflexivity.
Qed.

Lemma history_bound_witness :
  let events := map (fun n => (mkResults (Some fullLandmarks), inject_Z (Z.of_nat n)))
                    (seq 1 4) in
  let frames := omap frameOf events in
  let history := foldl onResults [] events in
  length history = Nat.min (length frames) 200 /\
  history = drop (length frames - 200) frames /\
  (forall h ev fr,
     frameOf ev = Some fr ->
     (200 < length (h ++ [fr]))%nat ->
     onResults h ev = drop 1 h ++ [fr]).
Proof.
  exact (history_bound
           (map (fun n => (mkResults (Some fullLandmarks), inject_Z (Z.of_nat n)))
                (seq 1 4))).
Defined.

(** 201 frames stamped 1 to 201 arrive: the frame stamped 1 is evicted, the
    200 frames stamped 2 to 201 remain. *)
Example history_eviction_scenario :
  map timestamp
    (foldl onResults []
       (map (fun n => (mkResults (Some fullLandmarks), inject_Z (Z.of_nat n)))
            (seq 1 201)))
  = map (fun n => inject_Z (Z.of_nat n)) (seq 2 200).
Proof. vm_compute. reflexivity. Qed.

(** A result without landmarks appends nothing. *)
Example result_without_landmarks :
  onResults [fullFrame 1] (mkResults None, 2) = [fullFrame 1].
Proof. reflexivity. Qed.

(** ** Further properties of the history store *)

Lemma timeOrdered_intro (fr : PoseFrame) (rest : list PoseFrame) :
  timeOrdered rest = true ->
  (forall fr', In fr' rest -> timestamp fr <= timestamp fr') ->
  timeOrdered (fr :: rest) = true.
Proof.
  intros Hrest Hall. destruct rest as [|g rest]; [reflexivity|].
  cbn [timeOrdered] in *. rewrite Hrest, andb_true_r.
  apply Qle_bool_iff, Hall. now left.
Qed.

Lemma timeOrdered_drop (n : nat) (l : list PoseFrame) :
  timeOrdered l = true -> timeOrdered (drop n l) = true.
Proof.
  revert l. induction n as [|n IH]; intros l Hl; [exact Hl|].
  destruct l as [|fr l]; [reflexivity|].
  cbn [drop]. apply IH. now destruct (timeOrdered_cons fr l Hl).
Qed.

Lemma clockOrdered_cons (ev : Results * Q) (rest : list (Results * Q)) :
  clockOrdered (ev :: rest) = true ->
  clockOrdered rest = true /\
  (forall ev', In ev' rest -> snd ev <= snd ev').
Proof.
  revert ev. induction rest as [|e rest IH]; intros ev H.
  - split; [reflexivity | intros ? []].
  - cbn [clockOrdered] in H. apply andb_prop in H as [Hle Hrest].
    apply Qle_bool_iff in Hle.
    split; [exact Hrest|].
    intros ev' [<- | Hin]; [exact Hle|].
    destruct (IH e Hrest) as [_ Hall].
    apply Qle_trans with (snd e); auto.
Qed.

Lemma frameOf_timestamp (ev : Results * Q) (fr : PoseFrame) :
  frameOf ev = Some fr -> timestamp fr = snd ev /\ landmarks fr <> None.
Proof.
  unfold frameOf. destruct (poseLandmarks (fst ev)); [|discriminate].
  intros [= <-]. split; [reflexivity | discriminate].
Qed.

Lemma frames_of_events (events : list (Results * Q)) (fr : PoseFrame) :
  In fr (omap frameOf events) ->
  exists ev, In ev events /\ frameOf ev = Some fr.
Proof.
  intros Hin. apply list_elem_of_In, list_elem_of_omap in Hin as (ev & Hev & Hfr).
  exists ev. split; [now apply list_elem_of_In | exact Hfr].
Qed.

Lemma frames_timeOrdered (events : list (Results * Q)) :
  clockOrdered events = true -> timeOrdered (omap frameOf events) = true.
Proof.
  induction events as [|ev events IH]; intros Hord; [reflexivity|].
  destruct (clockOrdered_cons _ _ Hord) as [Hrest Hall].
  assert (Hcons : omap frameOf (ev :: events)
                  = match frameOf ev with
                    | Some fr => fr :: omap frameOf events
                    | None => omap frameOf events
                    end) by reflexivity.
  rewrite Hcons. destruct (frameOf ev) as [fr|] eqn:Hev; [|auto].
  apply timeOrdered_intro; [auto|].
  intros fr' Hfr'. destruct (frames_of_events _ _ Hfr') as (ev' & Hin & Hev').
  destruct (frameOf_timestamp _ _ Hev) as [-> _].
  destruct (frameOf_timestamp _ _ Hev') as [-> _]. auto.
Qed.

Lemma history_frames (events : list (Results * Q)) (fr : PoseFrame) :
  In fr (historyAfter events) ->
  exists ev, In ev events /\ frameOf ev = Some fr.
Proof.
  unfold historyAfter. rewrite history_last_frames. intros Hin.
  apply frames_of_events.
  apply list_elem_of_In. apply list_elem_of_In in Hin.
  eapply elem_of_sublist; [exact Hin|]. apply sublist_drop.
Qed.

Lemma history_is_time_ordered_aux (events : list (Results * Q)) :
  clockOrdered events = true ->
  timeOrdered (historyAfter events) = true.
Proof.
  intros Hord. unfold historyAfter. rewrite history_last_frames.
  apply timeOrdered_drop, frames_timeOrdered, Hord.
Qed.

(** X1: when the clock readings of the events never go back, the history
    kept by the pose callback is ordered by non-decreasing timestamp, which
    is what the search of the render tick relies on. *)
Theorem history_is_time_ordered (events : list (Results * Q)) :
  clockOrdered events = true ->
  timeOrdered (historyAfter events) = true.
Proof.
  intros Hord. unfold historyAfter. rewrite history_last_frames.
  apply timeOrdered_drop. apply frames_timeOrdered. exact Hord.
Qed.

Lemma history_is_time_ordered_witness :
  timeOrdered
    (historyAfter [ (mkResults (Some fullLandmarks), 10);
                    (mkResults None, 20);
                    (mkResults (Some []), 20);
                    (mkResults (Some fullLandmarks), 35) ]) = true.
Proof.
  apply (history_is_time_ordered
           [ (mkResults (Some fullLandmarks), 10);
             (mkResults None, 20);
             (mkResults (Some []), 20);
             (mkResults (Some fullLandmarks), 35) ]).
  reflexivity.
Defined.

(** X2: one call of the pose callback never shortens the history and adds at
    most one frame; a history of at most 200 frames stays at most 200 long,
    and a longer one is not cut back: at most one frame is evicted per
    call. *)
Theorem onResults_length (h : list PoseFrame) (ev : Results * Q) :
  (length h <= length (onResults h ev) <= Nat.max (length h) 200)%nat /\
  (length (onResults h ev) <= length h + 1)%nat.
Proof.
  destruct (frameOf ev) as [fr|] eqn:Hev.
  - rewrite (onResults_some _ _ _ Hev).
    destruct (Nat.ltb_spec 200 (length (h ++ [fr]))) as [Hgt|Hle].
    + destruct h as [|fr0 h]; [cbn in Hgt; lia|].
      unfold shift. cbn [app tail length] in *.
      rewrite length_app in *. cbn [length] in *. lia.
    + rewrite length_app in *. cbn [length] in *. lia.
  - rewrite (onResults_none _ _ Hev). lia.
Qed.

(** X3: a result that carries landmarks always ends up as the newest, last
    frame of the history, stamped with the clock reading of its arrival, also
    when the history is full. *)
Theorem newest_frame_is_last (h : list PoseFrame) (ev : Results * Q)
    (lms : list (option Landmark)) :
  poseLandmarks (fst ev) = Some lms ->
  last (onResults h ev)
  = Some {| timestamp := snd ev; landmarks := Some lms |}.
Proof.
  intros Hlms.
  set (fr := {| timestamp := snd ev; landmarks := Some lms |}).
  assert (Hev : frameOf ev = Some fr)
    by (unfold frameOf; now rewrite Hlms).
  rewrite (onResults_some _ _ _ Hev).
  destruct (Nat.ltb_spec 200 (length (h ++ [fr]))) as [Hgt|_];
    [|apply last_snoc].
  destruct h as [|fr0 h]; [cbn in Hgt; lia|].
  unfold shift. cbn [app tail]. apply last_snoc.
Qed.

Lemma newest_frame_is_last_witness :
  last (onResults [fullFrame 1; fullFrame 2] (mkResults (Some fullLandmarks), 3))
  = Some {| timestamp := snd (mkResults (Some fullLandmarks), 3);
            landmarks := Some fullLandmarks |}.
Proof.
  apply (newest_frame_is_last [fullFrame 1; fullFrame 2]
           (mkResults (Some fullLandmarks), 3) fullLandmarks).
  reflexivity.
Defined.

(** X4: results without landmarks leave no trace: the history after a run of
    events is the history after the events that carry landmarks alone. *)
Theorem results_without_landmarks_ignored (events : list (Results * Q)) :
  historyAfter events
  = historyAfter
      (List.filter (fun ev => Js.truthy (poseLandmarks (fst ev))) events).
Proof.
  unfold historyAfter. rewrite !history_last_frames.
  assert (E : omap frameOf (List.filter (fun ev => Js.truthy (poseLandmarks (fst ev))) events)
              = omap frameOf events).
  { induction events as [|ev events IH]; [reflexivity|].
    cbn [List.filter].
    assert (Hc : forall e l, omap frameOf (e :: l)
                 = match frameOf e with
                   | Some fr => fr :: omap frameOf l
                   | None => omap frameOf l
                   end) by reflexivity.
    rewrite (Hc ev events). unfold frameOf at 2.
    destruct (poseLandmarks (fst ev)) as [lms|] eqn:Hl; cbn [Js.truthy].
    - rewrite Hc. unfold frameOf at 1. rewrite Hl. now rewrite IH.
    - exact IH. }
  now rewrite E.
Qed.

(** ** Further properties of the search *)

Lemma scan_member (t : Q) (rest : list PoseFrame) (best : PoseFrame) :
  exists b,
    scan t rest best (timeDiff t best) = (b, timeDiff t b) /\
    (b = best \/ In b rest) /\
    timeDiff t b <= timeDiff t best.
Proof.
  revert best. induction rest as [|fr rest IH]; intros best.
  - exists best. cbn. repeat split; [now left | lra].
  - cbn [scan].
    destruct (lt_spec (timeDiff t fr) (timeDiff t best)) as [Hlt|Hge].
    + destruct (IH fr) as (b & Hb & Hin & Hle).
      exists b. split; [exact Hb|]. split; [|lra].
      right. destruct Hin as [-> | Hin]; [now left | now right].
    + destruct (lt_spec (timeDiff t best) (timeDiff t fr)) as [Hgt|Hle].
      * exists best. repeat split; [now left | lra].
      * destruct (IH best) as (b & Hb & Hin & Hle').
        exists b. split; [exact Hb|]. split; [|exact Hle'].
        destruct Hin as [-> | Hin]; [now left | right; now right].
Qed.

(** The first frame of least difference, on a time-ordered history. *)
Lemma nearest_split (history : list PoseFrame) (t : Q) :
  history <> [] ->
  timeOrdered history = true ->
  exists pre best post,
    history = pre ++ best :: post /\
    findNearest history t = Js.Ok (best, timeDiff t best) /\
    (forall fr, In fr pre -> timeDiff t best < timeDiff t fr) /\
    (forall fr, In fr post -> timeDiff t best <= timeDiff t fr).
Proof.
  intros Hne Hord. destruct history as [|fr rest]; [congruence|].
  rewrite findNearest_scan.
  destruct (timeOrdered_cons _ _ Hord) as [Hrest Hfr].
  rewrite scan_fullScanFrom by assumption.
  destruct (fullScanFrom_first_min t rest [] [] fr)
    as (pre & b & post & E & R & Hpre & Hpost); [intros ? [] | intros ? [] |].
  exists pre, b, post. cbn in E. rewrite R. auto.
Qed.

Lemma nearest_global_min (history : list PoseFrame) (t : Q) :
  history <> [] ->
  timeOrdered history = true ->
  exists best,
    findNearest history t = Js.Ok (best, timeDiff t best) /\
    In best history /\
    (forall fr, In fr history -> timeDiff t best <= timeDiff t fr).
Proof.
  intros Hne Hord.
  destruct (nearest_split history t Hne Hord)
    as (pre & best & post & E & Hfind & Hpre & Hpost).
  exists best. split; [exact Hfind|]. rewrite E. split.
  - apply in_or_app. right. now left.
  - intros fr Hfr. apply in_app_or in Hfr as [Hfr | [<- | Hfr]].
    + specialize (Hpre fr Hfr). lra.
    + lra.
    + now apply Hpost.
Qed.

Lemma nearest_member (history : list PoseFrame) (t : Q) :
  history <> [] ->
  exists best,
    findNearest history t = Js.Ok (best, timeDiff t best) /\ In best history.
Proof.
  destruct history as [|fr0 rest]; [congruence|]. intros _.
  rewrite findNearest_scan.
  destruct (scan_member t rest fr0) as (b & Hb & Hin & _).
  exists b. rewrite Hb. split; [reflexivity|].
  destruct Hin as [-> | Hin]; [now left | now right].
Qed.

(** X5: on any non-empty history, ordered or not, the search raises no
    exception and returns a frame of the history together with that frame's
    own difference to the target, a difference no larger than the one of the
    first frame. *)
Theorem findNearest_in_history (history : list PoseFrame) (t : Q) :
  history <> [] ->
  exists best,
    findNearest history t = Js.Ok (best, timeDiff t best) /\
    In best history /\
    (forall fr, history !! 0%nat = Some fr -> timeDiff t best <= timeDiff t fr).
Proof.
  destruct history as [|fr0 rest]; [congruence|]. intros _.
  rewrite findNearest_scan.
  destruct (scan_member t rest fr0) as (b & Hb & Hin & Hle).
  exists b. rewrite Hb. split; [reflexivity|]. split.
  - destruct Hin as [-> | Hin]; [now left | now right].
  - intros fr [= <-]. exact Hle.
Qed.

Lemma findNearest_in_history_witness :
  exists best,
    findNearest [fullFrame 30; fullFrame 10; fullFrame 50] 12
    = Js.Ok (best, timeDiff 12 best) /\
    In best [fullFrame 30; fullFrame 10; fullFrame 50] /\
    (forall fr, [fullFrame 30; fullFrame 10; fullFrame 50] !! 0%nat = Some fr ->
                timeDiff 12 best <= timeDiff 12 fr).
Proof.
  apply (findNearest_in_history [fullFrame 30; fullFrame 10; fullFrame 50] 12).
  discriminate.
Defined.

(** X6: when the target is not earlier than any timestamp of a time-ordered
    history (the case of the layer without delay), the search returns a
    frame of the latest timestamp, and the difference is the target minus
    that timestamp. *)
Theorem target_after_history (history : list PoseFrame) (t : Q) :
  history <> [] ->
  timeOrdered history = true ->
  (forall fr, In fr history -> timestamp fr <= t) ->
  exists best,
    findNearest history t = Js.Ok (best, timeDiff t best) /\
    In best history /\
    (forall fr, In fr history -> timestamp fr <= timestamp best) /\
    timeDiff t best == t - timestamp best.
Proof.
  intros Hne Hord Hpast.
  destruct (nearest_global_min history t Hne Hord) as (best & Hfind & Hin & Hmin).
  assert (Hdiff : forall fr, In fr history -> timeDiff t fr == t - timestamp fr).
  { intros fr Hfr. specialize (Hpast fr Hfr). unfold timeDiff.
    rewrite Qabs_neg by lra. lra. }
  exists best. split; [exact Hfind|]. split; [exact Hin|]. split.
  - intros fr Hfr. specialize (Hmin fr Hfr).
    rewrite (Hdiff fr Hfr), (Hdiff best Hin) in Hmin. lra.
  - now apply Hdiff.
Qed.

Lemma target_after_history_witness :
  exists best,
    findNearest [fullFrame 10; fullFrame 20; fullFrame 20] 25
    = Js.Ok (best, timeDiff 25 best) /\
    In best [fullFrame 10; fullFrame 20; fullFrame 20] /\
    (forall fr, In fr [fullFrame 10; fullFrame 20; fullFrame 20] ->
                timestamp fr <= timestamp best) /\
    timeDiff 25 best == 25 - timestamp best.
Proof.
  apply (target_after_history [fullFrame 10; fullFrame 20; fullFrame 20] 25).
  - discriminate.
  - reflexivity.
  - intros fr [<- | [<- | [<- | []]]]; cbn; lra.
Defined.

(** X7: when the target is not later than the first timestamp of a
    time-ordered history (a layer whose delay reaches back before the oldest
    frame kept), the search returns the first, oldest frame. *)
Theorem target_before_history (fr0 : PoseFrame) (rest : list PoseFrame) (t : Q) :
  timeOrdered (fr0 :: rest) = true ->
  t <= timestamp fr0 ->
  findNearest (fr0 :: rest) t = Js.Ok (fr0, timeDiff t fr0) /\
  timeDiff t fr0 == timestamp fr0 - t.
Proof.
  intros Hord Ht. split; [|unfold timeDiff; rewrite Qabs_pos by lra; lra].
  rewrite findNearest_scan.
  destruct (timeOrdered_cons _ _ Hord) as [Hrest Hall].
  rewrite scan_fullScanFrom by assumption.
  f_equal. apply fullScanFrom_keep. intros fr Hfr. specialize (Hall fr Hfr).
  unfold timeDiff. rewrite !Qabs_pos by lra. lra.
Qed.

Lemma target_before_history_witness :
  findNearest (fullFrame 10 :: [fullFrame 10; fullFrame 30]) 4
  = Js.Ok (fullFrame 10, timeDiff 4 (fullFrame 10)) /\
  timeDiff 4 (fullFrame 10) == timestamp (fullFrame 10) - 4.
Proof.
  apply (target_before_history (fullFrame 10) [fullFrame 10; fullFrame 30] 4).
  - reflexivity.
  - cbn. lra.
Defined.

(** ** Further properties of the layers *)

(** X8: a layer comes out of its update visible exactly when the sampled
    frame has a landmark array and its difference is below 1000 ms; a layer
    that comes out invisible has nothing but its [visible] flag changed, and
    a layer that comes out visible has its buffer marked for upload. *)
Theorem layer_visibility (history : list PoseFrame) (t : Q) (mesh : Mesh)
    (best : PoseFrame) (d : Q) :
  findNearest history t = Js.Ok (best, d) ->
  exists mesh',
    drawLayer history t mesh = Js.Ok mesh' /\
    (visible mesh' = true <-> landmarks best <> None /\ d < 1000) /\
    (visible mesh' = false -> mesh' = hide mesh) /\
    (visible mesh' = true -> needsUpdate mesh' = true).
Proof.
  intros Hfind. rewrite (drawLayer_found _ _ _ _ _ Hfind).
  eexists. split; [reflexivity|].
  destruct (landmarks best) as [arr|].
  - destruct (lt_spec d 1000) as [Hlt|Hge]; cbn.
    + repeat split; try discriminate; auto.
    + repeat split; try discriminate; auto. intros [_ Hlt]. contradiction.
  - cbn. repeat split; try discriminate; auto. intros [H _]. congruence.
Qed.

Lemma layer_visibility_witness :
  exists mesh',
    drawLayer [fullFrame 1000] 1200 newLineSegments = Js.Ok mesh' /\
    (visible mesh' = true <->
     landmarks (fullFrame 1000) <> None /\ timeDiff 1200 (fullFrame 1000) < 1000) /\
    (visible mesh' = false -> mesh' = hide newLineSegments) /\
    (visible mesh' = true -> needsUpdate mesh' = true).
Proof.
  apply (layer_visibility [fullFrame 1000] 1200 newLineSegments (fullFrame 1000)
           (timeDiff 1200 (fullFrame 1000))).
  reflexivity.
Defined.

Lemma history_has_landmarks (events : list (Results * Q)) (fr : PoseFrame) :
  In fr (historyAfter events) -> landmarks fr <> None.
Proof.
  intros Hin. destruct (history_frames events fr Hin) as (ev & _ & Hev).
  now destruct (frameOf_timestamp ev fr Hev).
Qed.

(** X9: on a history built by the pose callback every frame has its
    landmark array, so a layer is visible after its update exactly when the
    nearest sample is less than 1000 ms from the target. *)
Theorem callback_history_visibility (events : list (Results * Q)) (t : Q)
    (mesh : Mesh) :
  historyAfter events <> [] ->
  exists best mesh',
    findNearest (historyAfter events) t = Js.Ok (best, timeDiff t best) /\
    drawLayer (historyAfter events) t mesh = Js.Ok mesh' /\
    (visible mesh' = true <-> timeDiff t best < 1000).
Proof.
  intros Hne.
  destruct (nearest_member _ t Hne) as (best & Hfind & Hin).
  pose proof (history_has_landmarks events best Hin) as Hlms.
  exists best. eexists. split; [exact Hfind|].
  rewrite (drawLayer_found _ _ _ _ _ Hfind). split; [reflexivity|].
  destruct (landmarks best) as [arr|]; [|congruence].
  destruct (lt_spec (timeDiff t best) 1000) as [Hlt|Hge]; cbn.
  - tauto.
  - split; [discriminate | contradiction].
Qed.

Lemma callback_history_visibility_witness :
  exists best mesh',
    findNearest (historyAfter [(mkResults (Some fullLandmarks), 500)]) 900
    = Js.Ok (best, timeDiff 900 best) /\
    drawLayer (historyAfter [(mkResults (Some fullLandmarks), 500)]) 900
      newLineSegments = Js.Ok mesh' /\
    (visible mesh' = true <-> timeDiff 900 best < 1000).
Proof.
  apply (callback_history_visibility [(mkResults (Some fullLandmarks), 500)] 900
           newLineSegments).
  discriminate.
Defined.

Lemma targetDelay_linear (i : nat) :
  targetDelay i == inject_Z (Z.of_nat i) * (1250 # 7).
Proof.
  unfold targetDelay, MAX_DELAY_MS.
  change (inject_Z (Z.of_nat (TRAIL_COUNT - 1))) with (14 # 1).
  field.
Qed.

Lemma inject_nat_le (i j : nat) :
  (i <= j)%nat -> inject_Z (Z.of_nat i) <= inject_Z (Z.of_nat j).
Proof. intros H. rewrite <- Zle_Qle. lia. Qed.

Lemma inject_nat_lt (i j : nat) :
  (i < j)%nat -> inject_Z (Z.of_nat i) < inject_Z (Z.of_nat j).
Proof. intros H. rewrite <- Zlt_Qlt. lia. Qed.

Lemma targetDelay_bounds (i : nat) :
  (i <= 14)%nat -> 0 <= targetDelay i <= 2500.
Proof.
  intros Hi.
  pose proof (inject_nat_le 0 i ltac:(lia)) as H0.
  pose proof (inject_nat_le i 14 Hi) as H14.
  change (inject_Z (Z.of_nat 0)) with 0 in H0.
  change (inject_Z (Z.of_nat 14)) with 14 in H14.
  rewrite targetDelay_linear. split; lra.
Qed.

(** X10: the delays of the layers 0 to 14 lie between 0 and the maximal
    delay, they grow strictly with the layer index, and two neighbouring
    layers are always 2500/14 ms apart: a later layer samples an earlier
    instant. *)
Theorem delays_bounded_and_increasing (i : nat) :
  (i <= 14)%nat ->
  0 <= targetDelay i <= MAX_DELAY_MS /\
  targetDelay (S i) - targetDelay i == MAX_DELAY_MS / 14 /\
  (forall j now, (i < j)%nat -> now - targetDelay j < now - targetDelay i).
Proof.
  intros Hi. split; [|split].
  - unfold MAX_DELAY_MS. now apply targetDelay_bounds.
  - rewrite !targetDelay_linear. unfold MAX_DELAY_MS.
    rewrite Nat2Z.inj_succ. unfold Z.succ. rewrite inject_Z_plus.
    change (inject_Z 1) with 1. field.
  - intros j now Hij. rewrite !targetDelay_linear.
    pose proof (inject_nat_lt i j Hij). lra.
Qed.

Lemma delays_bounded_and_increasing_witness :
  0 <= targetDelay 5 <= MAX_DELAY_MS /\
  targetDelay 6 - targetDelay 5 == MAX_DELAY_MS / 14 /\
  (forall j now, (5 < j)%nat -> now - targetDelay j < now - targetDelay 5).
Proof.
  apply (delays_bounded_and_increasing 5). lia.
Defined.

(** X11: when every frame of the history is at least 3500 ms older than the
    tick, each of the layers 0 to 14 is invisible after the tick: the trail
    is gone 3.5 s after the last pose. *)
Theorem old_history_hides_all (history : list PoseFrame) (now : Q)
    (meshes : list Mesh) (i : nat) (mesh : Mesh) :
  history <> [] ->
  (forall fr, In fr history -> timestamp fr + 3500 <= now) ->
  (i <= 14)%nat ->
  meshes !! i = Some mesh ->
  exists meshes',
    animate history now meshes = Js.Ok meshes' /\
    meshes' !! i = Some (hide mesh).
Proof.
  intros Hne Hold Hi Hmesh.
  destruct (animate_layers history now meshes Hne) as (meshes' & Hrun & _ & Hall).
  destruct (Hall i mesh Hmesh) as (mesh' & Hmesh' & Hup & _).
  exists meshes'. split; [exact Hrun|]. rewrite Hmesh'. f_equal.
  unfold updateLayer in Hup.
  destruct (nearest_member history (now - targetDelay i) Hne)
    as (best & Hfind & Hin).
  rewrite (drawLayer_found _ _ _ _ _ Hfind) in Hup.
  destruct (targetDelay_bounds i Hi) as [_ Hmax].
  specialize (Hold best Hin).
  destruct (lt_spec (timeDiff (now - targetDelay i) best) 1000) as [Hlt|_].
  - exfalso. revert Hlt. unfold timeDiff.
    apply Qabs_case; intros; lra.
  - destruct (landmarks best); congruence.
Qed.

Lemma old_history_hides_all_witness :
  exists meshes',
    animate [fullFrame 0; fullFrame 500] 4000 skeletonMeshes = Js.Ok meshes' /\
    meshes' !! 14%nat = Some (hide newLineSegments).
Proof.
  apply (old_history_hides_all [fullFrame 0; fullFrame 500] 4000 skeletonMeshes 14
           newLineSegments).
  - discriminate.
  - intros fr [<- | [<- | []]]; cbn; lra.
  - lia.
  - reflexivity.
Defined.

(** ** Repeated ticks *)

Lemma inserts_idem (i : nat) (k l : list Q) :
  list_inserts i k (list_inserts i k l) = list_inserts i k l.
Proof.
  apply list_eq. intros j.
  destruct (decide (j < i)%nat) as [Hlt|Hge].
  { now rewrite !list_lookup_inserts_lt by lia. }
  destruct (decide (i + length k <= j)%nat) as [Hout|Hin].
  { now rewrite !list_lookup_inserts_ge by lia. }
  destruct (decide (j < length l)%nat) as [Hj|Hj].
  - rewrite !list_lookup_inserts by (rewrite ?length_inserts; lia). reflexivity.
  - rewrite !lookup_ge_None_2 by (rewrite ?length_inserts; lia). reflexivity.
Qed.

Lemma drawLayer_idem (history : list PoseFrame) (t : Q) (mesh mesh' : Mesh) :
  drawLayer history t mesh = Js.Ok mesh' ->
  drawLayer history t mesh' = Js.Ok mesh'.
Proof.
  intros Hdraw.
  destruct (findNearest history t) as [[best d]|e] eqn:Hfind.
  - rewrite (drawLayer_found _ _ mesh _ _ Hfind) in Hdraw.
    rewrite (drawLayer_found _ _ mesh' _ _ Hfind).
    injection Hdraw as <-.
    destruct (landmarks best); [destruct (Js.lt d 1000)|]; cbn;
      rewrite ?inserts_idem; reflexivity.
  - unfold drawLayer in Hdraw. rewrite Hfind in Hdraw. discriminate.
Qed.

Lemma forEachFrom_fixed (f : Mesh -> nat -> Js.Exc Mesh) (i : nat)
    (meshes : list Mesh) :
  (forall k mesh, meshes !! k = Some mesh -> f mesh (i + k)%nat = Js.Ok mesh) ->
  forEachFrom f i meshes = Js.Ok meshes.
Proof.
  revert i. induction meshes as [|mesh rest IH]; intros i Hall; [reflexivity|].
  cbn [forEachFrom].
  pose proof (Hall 0%nat mesh eq_refl) as H0. rewrite Nat.add_0_r in H0.
  rewrite H0. cbn. rewrite IH; [reflexivity|].
  intros k m Hk. rewrite <- (Hall (S k) m Hk). f_equal. lia.
Qed.

Lemma animate_preserves (history : list PoseFrame) (now : Q) (meshes : list Mesh) :
  exists meshes',
    animate history now meshes = Js.Ok meshes' /\
    length meshes' = length meshes /\
    (forall k mesh', meshes' !! k = Some mesh' ->
       exists mesh, meshes !! k = Some mesh /\
                    length (positions mesh') = length (positions mesh) /\
                    (history <> [] -> updateLayer history now mesh k = Js.Ok mesh')).
Proof.
  destruct history as [|fr rest] eqn:E.
  - exists meshes. split; [reflexivity|]. split; [reflexivity|].
    intros k m Hk. exists m. repeat split; [exact Hk | congruence].
  - rewrite <- E. assert (Hne : history <> []) by (rewrite E; discriminate).
    destruct (animate_layers history now meshes Hne) as (meshes' & Hrun & Hlen & Hall).
    exists meshes'. split; [exact Hrun|]. split; [exact Hlen|].
    intros k m' Hk.
    destruct (lookup_lt_is_Some_2 meshes k) as [m Hm].
    { rewrite <- Hlen. eapply lookup_lt_Some, Hk. }
    destruct (Hall k m Hm) as (m'' & Hm'' & Hup & Hl).
    exists m. assert (m'' = m') by congruence. subst m''. auto.
Qed.

(** X12: a tick repeated with the same history and the same clock reading
    changes nothing more: running it on the layers it produced gives those
    layers again. *)
Theorem tick_idempotent (history : list PoseFrame) (now : Q) (meshes : list Mesh) :
  Js.bind (animate history now meshes) (animate history now)
  = animate history now meshes.
Proof.
  destruct (animate_preserves history now meshes) as (meshes' & Hrun & Hlen & Hall).
  rewrite Hrun. cbn [Js.bind].
  destruct history as [|fr rest] eqn:E; [reflexivity|]. rewrite <- E in *.
  assert (Hne : history <> []) by (rewrite E; discriminate).
  unfold animate. rewrite E at 1. cbn [length Nat.ltb Nat.leb].
  apply forEachFrom_fixed. intros k m' Hk.
  destruct (Hall k m' Hk) as (m & _ & _ & Hup). specialize (Hup Hne).
  unfold updateLayer in *. cbn [Nat.add]. eapply drawLayer_idem, Hup.
Qed.

(** X13: from the layers built at start-up, any succession of ticks,
    whatever the histories and the clock readings, raises no exception and
    leaves 15 layers, each with a buffer of 2 x |connections| x 3 = 210
    floats. *)
Theorem layers_keep_their_shape (ticks : list (list PoseFrame * Q)) :
  exists meshes,
    runTicks ticks skeletonMeshes = Js.Ok meshes /\
    length meshes = TRAIL_COUNT /\
    (forall mesh, In mesh meshes ->
       length (positions mesh) = (length ALL_CONNECTIONS * 2 * 3)%nat /\
       length (positions mesh) = 210%nat).
Proof.
  assert (Hgen : forall start,
            length start = TRAIL_COUNT ->
            (forall mesh, In mesh start -> length (positions mesh) = 210%nat) ->
            exists meshes,
              runTicks ticks start = Js.Ok meshes /\
              length meshes = TRAIL_COUNT /\
              (forall mesh, In mesh meshes -> length (positions mesh) = 210%nat)).
  { induction ticks as [|[history now] ticks IH]; intros start Hlen Hbuf.
    - exists start. auto.
    - destruct (animate_preserves history now start) as (next & Hrun & Hl & Hall).
      cbn [runTicks fst snd]. rewrite Hrun. cbn.
      apply IH; [congruence|].
      intros m' Hm'. apply list_elem_of_In, list_elem_of_lookup in Hm' as [k Hk].
      destruct (Hall k m' Hk) as (m & Hm & Hsame & _).
      rewrite Hsame. apply Hbuf.
      apply list_elem_of_In, list_elem_of_lookup. eauto. }
  destruct (Hgen skeletonMeshes) as (meshes & Hrun & Hlen & Hbuf).
  - reflexivity.
  - intros mesh Hin. unfold skeletonMeshes in Hin.
    apply in_map_iff in Hin as (i & <- & _). reflexivity.
  - exists meshes. split; [exact Hrun|]. split; [exact Hlen|].
    intros mesh Hin. split; [|auto]. now rewrite (Hbuf mesh Hin).
Qed.

(** ** Colours *)

(** X14: the colour lookup of the construction loop never leaves the
    palette: every layer index gets a colour, the colours repeat with period
    three, and two neighbouring layers never share a colour. *)
Theorem layer_colours (i : nat) :
  is_Some (layerColor i) /\
  layerColor (i + 3) = layerColor i /\
  layerColor (S i) <> layerColor i.
Proof.
  unfold layerColor. cbn [length neonColors].
  replace ((i + 3) mod 3)%nat with (i mod 3)%nat
    by (rewrite <- (Nat.Div0.mod_add i 1 3); f_equal; lia).
  replace (S i mod 3)%nat with ((i mod 3 + 1) mod 3)%nat
    by (rewrite Nat.Div0.add_mod_idemp_l; f_equal; lia).
  pose proof (Nat.mod_upper_bound i 3 ltac:(lia)) as Hr.
  destruct (i mod 3)%nat as [|[|[|r]]]; [| | |lia];
    (split; [eexists; reflexivity|]; split; [reflexivity|]; discriminate).
Qed.

(** ** Landmarks outside the frame *)

(** X15: the transform does not clamp: a landmark left of, right of, above or
    below the unit square lands outside the band [-7.5, 7.5], on the
    mirrored side for x; and distinct inputs never collapse onto one world
    coordinate. *)
Theorem off_frame_not_clamped (lx ly : Q) :
  (lx < 0 -> 15 # 2 < toWorldX lx) /\
  (1 < lx -> toWorldX lx < - (15 # 2)) /\
  (ly < 0 -> 15 # 2 < toWorldY ly) /\
  (1 < ly -> toWorldY ly < - (15 # 2)) /\
  (forall lx', toWorldX lx == toWorldX lx' -> lx == lx') /\
  (forall ly', toWorldY ly == toWorldY ly' -> ly == ly').
Proof.
  unfold toWorldX, toWorldY. repeat split; intros; lra.
Qed.

Lemma off_frame_not_clamped_witness :
  (- (1 # 5) < 0 -> 15 # 2 < toWorldX (- (1 # 5))) /\
  (1 < - (1 # 5) -> toWorldX (- (1 # 5)) < - (15 # 2)) /\
  (6 # 5 < 0 -> 15 # 2 < toWorldY (6 # 5)) /\
  (1 < 6 # 5 -> toWorldY (6 # 5) < - (15 # 2)) /\
  (forall lx', toWorldX (- (1 # 5)) == toWorldX lx' -> - (1 # 5) == lx') /\
  (forall ly', toWorldY (6 # 5) == toWorldY ly' -> 6 # 5 == ly').
Proof.
  exact (off_frame_not_clamped (- (1 # 5)) (6 # 5)).
Defined.

(** ** Drawing one frame after another *)

(** X16: when a layer is drawn from a complete frame and then from a frame
    with landmark array [arrB], its buffer holds what [arrB] writes, packed
    from index 0, followed by the floats the complete frame had left at the
    remaining indices: the stale segments at the end are those of the last
    connections of the earlier frame. *)
Theorem stale_tail_after_partial (hA hB : list PoseFrame) (tA tB : Q)
    (mesh : Mesh) (frA frB : PoseFrame) (dA dB : Q)
    (arrA arrB : list (option Landmark)) :
  length (positions mesh) = (length ALL_CONNECTIONS * 2 * 3)%nat ->
  findNearest hA tA = Js.Ok (frA, dA) -> dA < 1000 ->
  landmarks frA = Some arrA ->
  (forall k, (k < 33)%nat -> is_Some (at_index arrA k)) ->
  findNearest hB tB = Js.Ok (frB, dB) -> dB < 1000 ->
  landmarks frB = Some arrB ->
  exists mesh1 mesh2,
    drawLayer hA tA mesh = Js.Ok mesh1 /\
    drawLayer hB tB mesh1 = Js.Ok mesh2 /\
    positions mesh2
    = written arrB ALL_CONNECTIONS
      ++ drop (length (written arrB ALL_CONNECTIONS)) (written arrA ALL_CONNECTIONS).
Proof.
  intros Hbuf HfA HdA HlA Hfull HfB HdB HlB.
  rewrite (drawLayer_found _ _ _ _ _ HfA), HlA.
  destruct (lt_spec dA 1000) as [_|]; [|contradiction].
  eexists. eexists. split; [reflexivity|].
  rewrite (drawLayer_found _ _ _ _ _ HfB), HlB.
  destruct (lt_spec dB 1000) as [_|]; [|contradiction].
  split; [reflexivity|]. cbn [positions].
  assert (Hsix : forall c, In c ALL_CONNECTIONS ->
            length (segmentOf arrA c) = 6%nat).
  { intros c Hc. destruct (connection_indices c Hc) as [Ha Hb].
    destruct (Hfull _ Ha) as [s Hs], (Hfull _ Hb) as [e He].
    unfold segmentOf. rewrite Hs, He. reflexivity. }
  pose proof (written_full_length arrA ALL_CONNECTIONS Hsix) as HwA.
  pose proof (length_written arrB ALL_CONNECTIONS) as HwB.
  rewrite (inserts_whole (written arrA ALL_CONNECTIONS)) by lia.
  apply inserts_prefix. lia.
Qed.

Lemma stale_tail_after_partial_witness :
  exists mesh1 mesh2,
    drawLayer [fullFrame 1000] 1000 newLineSegments = Js.Ok mesh1 /\
    drawLayer [{| timestamp := 1033; landmarks := Some (<[8%nat := None]> fullLandmarks) |}]
      1033 mesh1 = Js.Ok mesh2 /\
    positions mesh2
    = written (<[8%nat := None]> fullLandmarks) ALL_CONNECTIONS
      ++ drop (length (written (<[8%nat := None]> fullLandmarks) ALL_CONNECTIONS))
              (written fullLandmarks ALL_CONNECTIONS).
Proof.
  apply (stale_tail_after_partial
           [fullFrame 1000]
           [{| timestamp := 1033; landmarks := Some (<[8%nat := None]> fullLandmarks) |}]
           1000 1033 newLineSegments (fullFrame 1000)
           {| timestamp := 1033; landmarks := Some (<[8%nat := None]> fullLandmarks) |}
           (timeDiff 1000 (fullFrame 1000))
           (timeDiff 1033
              {| timestamp := 1033;
                 landmarks := Some (<[8%nat := None]> fullLandmarks) |})
           fullLandmarks (<[8%nat := None]> fullLandmarks)).
  - reflexivity.
  - reflexivity.
  - reflexivity.
  - reflexivity.
  - intros k Hk. unfold at_index, fullLandmarks.
    rewrite lookup_replicate_2 by exact Hk. eexists. reflexivity.
  - reflexivity.
  - reflexivity.
  - reflexivity.
Defined.

(** ** The callback and the tick together *)

(** X17: on a history built by the pose callback under a clock that never
    goes back, the search of the tick finds, for any target, a frame of the
    history that carries its landmark array and whose difference to the target
    is the least of all frames kept. *)
Theorem callback_history_nearest (events : list (Results * Q)) (t : Q) :
  clockOrdered events = true ->
  historyAfter events <> [] ->
  exists best,
    findNearest (historyAfter events) t = Js.Ok (best, timeDiff t best) /\
    In best (historyAfter events) /\
    landmarks best <> None /\
    (forall fr, In fr (historyAfter events) -> timeDiff t best <= timeDiff t fr).
Proof.
  intros Hord Hne.
  destruct (nearest_global_min _ t Hne (history_is_time_ordered_aux events Hord))
    as (best & Hfind & Hin & Hmin).
  exists best. repeat split; try assumption.
  now apply (history_has_landmarks events).
Qed.

Lemma callback_history_nearest_witness :
  exists best,
    findNearest (historyAfter [(mkResults (Some fullLandmarks), 500);
                               (mkResults (Some fullLandmarks), 900)]) 600
    = Js.Ok (best, timeDiff 600 best) /\
    In best (historyAfter [(mkResults (Some fullLandmarks), 500);
                           (mkResults (Some fullLandmarks), 900)]) /\
    landmarks best <> None /\
    (forall fr, In fr (historyAfter [(mkResults (Some fullLandmarks), 500);
                                     (mkResults (Some fullLandmarks), 900)]) ->
                timeDiff 600 best <= timeDiff 600 fr).
Proof.
  apply (callback_history_nearest
           [(mkResults (Some fullLandmarks), 500);
            (mkResults (Some fullLandmarks), 900)] 600).
  - reflexivity.
  - discriminate.
Defined.

(** X18: while poses keep arriving under a clock that never goes back, the
    layer without delay is drawn: if no frame of the history is stamped after
    the tick and some frame is less than 1000 ms old, the first layer comes
    out visible, written from a frame of the latest timestamp. *)
Theorem undelayed_layer_shows_latest (events : list (Results * Q)) (now : Q)
    (meshes : list Mesh) (mesh : Mesh) :
  clockOrdered events = true ->
  (forall fr, In fr (historyAfter events) -> timestamp fr <= now) ->
  (exists fr, In fr (historyAfter events) /\ now - timestamp fr < 1000) ->
  meshes !! 0%nat = Some mesh ->
  exists meshes' best arr,
    animate (historyAfter events) now meshes = Js.Ok meshes' /\
    In best (historyAfter events) /\
    (forall fr, In fr (historyAfter events) -> timestamp fr <= timestamp best) /\
    landmarks best = Some arr /\
    meshes' !! 0%nat
    = Some {| positions :=
                list_inserts 0 (written arr ALL_CONNECTIONS) (positions mesh);
              needsUpdate := true;
              visible := true |}.
Proof.
  intros Hord Hpast (recent & Hrecent & Hfresh) Hmesh.
  set (history := historyAfter events) in *.
  assert (Hne : history <> []) by (intros E; rewrite E in Hrecent; destruct Hrecent).
  assert (H0 : targetDelay 0 == 0) by reflexivity.
  set (t := now - targetDelay 0).
  destruct (nearest_global_min history t Hne (history_is_time_ordered_aux events Hord))
    as (best & Hfind & Hin & Hmin).
  assert (Hdiff : forall fr, In fr history -> timeDiff t fr == now - timestamp fr).
  { intros fr Hfr. specialize (Hpast fr Hfr). unfold timeDiff, t.
    rewrite Qabs_neg by lra. lra. }
  destruct (landmarks best) as [arr|] eqn:Harr;
    [|now destruct (history_has_landmarks events best Hin)].
  destruct (animate_layers history now meshes Hne) as (meshes' & Hrun & _ & Hall).
  destruct (Hall 0%nat mesh Hmesh) as (mesh' & Hmesh' & Hup & _).
  exists meshes', best, arr.
  split; [exact Hrun|]. split; [exact Hin|]. split; [|split; [exact Harr|]].
  - intros fr Hfr. specialize (Hmin fr Hfr).
    rewrite (Hdiff fr Hfr), (Hdiff best Hin) in Hmin. lra.
  - rewrite Hmesh'. f_equal.
    unfold updateLayer in Hup. fold t in Hup.
    rewrite (drawLayer_found _ _ _ _ _ Hfind), Harr in Hup.
    destruct (lt_spec (timeDiff t best) 1000) as [_|Hge]; [congruence|].
    exfalso. apply Hge. specialize (Hmin recent Hrecent).
    rewrite (Hdiff recent Hrecent) in Hmin. lra.
Qed.

Lemma undelayed_layer_shows_latest_witness :
  exists meshes' best arr,
    animate (historyAfter [(mkResults (Some fullLandmarks), 500);
                           (mkResults (Some fullLandmarks), 900)]) 1000
      skeletonMeshes = Js.Ok meshes' /\
    In best (historyAfter [(mkResults (Some fullLandmarks), 500);
                           (mkResults (Some fullLandmarks), 900)]) /\
    (forall fr, In fr (historyAfter [(mkResults (Some fullLandmarks), 500);
                                     (mkResults (Some fullLandmarks), 900)]) ->
                timestamp fr <= timestamp best) /\
    landmarks best = Some arr /\
    meshes' !! 0%nat
    = Some {| positions :=
                list_inserts 0 (written arr ALL_CONNECTIONS)
                  (positions newLineSegments);
              needsUpdate := true;
              visible := true |}.
Proof.
  apply (undelayed_layer_shows_latest
           [(mkResults (Some fullLandmarks), 500);
            (mkResults (Some fullLandmarks), 900)] 1000 skeletonMeshes
           newLineSegments).
  - reflexivity.
  - intros fr [<- | [<- | []]]; cbn; lra.
  - exists (fullFrame 900). split; [right; left; reflexivity | cbn; lra].
  - reflexivity.
Defined.

(** ** The status line *)

(** X19: once start-up has settled the status line shows exactly one of its
    three blocks.  It is the error text when no pose constructor is found (and
    then no camera is started) or when the camera refuses to start; it is the
    mode block when the camera started; and it stays on the detecting block,
    with no error reported, when the pose constructor is there but the video
    element or the camera constructor is missing. *)
Theorem status_line_shows_one_block (host : Host) :
  exists banner,
    statusLine (mountEffect host) = [banner] /\
    (PoseConstructor host = None ->
     banner = ErrorText "Failed to initialize Pose detection."%string /\
     camera_started (mountEffect host) = false) /\
    (PoseConstructor host <> None ->
     videoRef_current host = true -> CameraConstructor host <> None ->
     banner = if start_resolves host then ModeAndTrail
              else ErrorText "Camera access denied."%string) /\
    (PoseConstructor host <> None ->
     videoRef_current host = false \/ CameraConstructor host = None ->
     banner = DetectingForm /\ error (mountEffect host) = None).
Proof.
  unfold mountEffect.
  destruct (PoseConstructor host) as [p|]; cbn [Js.truthy negb];
    [destruct (videoRef_current host);
       [destruct (CameraConstructor host) as [c|]; cbn [Js.truthy];
          [destruct (start_resolves host)|]|]|];
    (eexists; split; [reflexivity|]);
    repeat split; intros;
    repeat match goal with H : _ \/ _ |- _ => destruct H end;
    congruence.
Qed.
